(** * pidrone_pkg: optical-flow velocity estimator and mocap axis remap

    A shallow embedding of [scripts/picam_flow_class.py] (class
    [AnalyzeFlow]) and [scripts/mocap_state_estimator.py] (class
    [MocapStateEstimator]).

    Numbers.  Python and numpy floats are modelled as exact reals extended
    with the three non-finite IEEE values ([PInf], [MInf], [NaN]); rounding
    is abstracted away, the propagation of non-finite values is kept.
    Python exceptions are the [Raise] alternative of [result]. *)

From Stdlib Require Import Reals Lra Lia ZArith List Bool String.
Import ListNotations.

Set Implicit Arguments.

(** ** Python exceptions and the error monad *)

Module Py.

Inductive exn : Type :=
| AssertionError
| ValueError
| ZeroDivisionError
| AttributeError
| IndexError.

Inductive result (A : Type) : Type :=
| Ok (a : A)
| Raise (e : exn).

Arguments Ok {A} a.
Arguments Raise {A} e.

Definition bind {A B : Type} (m : result A) (k : A -> result B) : result B :=
  match m with
  | Ok a => k a
  | Raise e => Raise e
  end.

(** [for v in l: acc = body(acc, v)], stopping at the first exception. *)
Fixpoint for_each {A S : Type} (l : list A) (body : S -> A -> result S)
         (acc : S) : result S :=
  match l with
  | [] => Ok acc
  | v :: l' => bind (body acc v) (for_each l' body)
  end.

End Py.

Export Py.

Notation "x <- m ;; k" := (Py.bind m (fun x => k))
  (at level 61, m at next level, right associativity).
Notation "' pat <- m ;; k" :=
  (Py.bind m (fun x => match x with pat => k end))
  (at level 61, pat pattern, m at next level, right associativity).

(** ** Floating-point values, read as extended reals *)

Module Num.

Open Scope R_scope.

Inductive num : Type :=
| Fin (r : R)
| PInf
| MInf
| NaN.

Definition of_Z (z : Z) : num := Fin (IZR z).

Definition fopp (a : num) : num :=
  match a with
  | Fin r => Fin (- r)
  | PInf => MInf
  | MInf => PInf
  | NaN => NaN
  end.

Definition fadd (a b : num) : num :=
  match a, b with
  | NaN, _ | _, NaN => NaN
  | Fin x, Fin y => Fin (x + y)
  | PInf, MInf | MInf, PInf => NaN
  | PInf, _ | _, PInf => PInf
  | MInf, _ | _, MInf => MInf
  end.

Definition fsub (a b : num) : num := fadd a (fopp b).

(** Sign of a finite factor against an infinity: [inf * 0] is [NaN]. *)
Definition scale_inf (r : R) (pos : num) (neg : num) : num :=
  if Req_dec_T r 0 then NaN
  else if Rlt_dec 0 r then pos else neg.

Definition fmul (a b : num) : num :=
  match a, b with
  | NaN, _ | _, NaN => NaN
  | Fin x, Fin y => Fin (x * y)
  | Fin x, PInf | PInf, Fin x => scale_inf x PInf MInf
  | Fin x, MInf | MInf, Fin x => scale_inf x MInf PInf
  | PInf, PInf | MInf, MInf => PInf
  | PInf, MInf | MInf, PInf => MInf
  end.

(** IEEE division as numpy performs it on arrays and numpy scalars: a zero
    divisor gives [NaN] for [0/0] and an infinity otherwise (the zero
    divisors of this program are norms, hence [+0]). *)
Definition np_div (a b : num) : num :=
  match a, b with
  | NaN, _ | _, NaN => NaN
  | Fin x, Fin y =>
      if Req_dec_T y 0
      then (if Req_dec_T x 0 then NaN else if Rlt_dec 0 x then PInf else MInf)
      else Fin (x / y)
  | Fin _, PInf | Fin _, MInf => Fin 0
  | PInf, Fin y => if Rlt_dec y 0 then MInf else PInf
  | MInf, Fin y => if Rlt_dec y 0 then PInf else MInf
  | PInf, PInf | PInf, MInf | MInf, PInf | MInf, MInf => NaN
  end.

(** Division of Python floats: a zero divisor raises. *)
Definition py_div (a b : num) : result num :=
  match b with
  | Fin y => if Req_dec_T y 0 then Raise ZeroDivisionError else Ok (np_div a b)
  | _ => Ok (np_div a b)
  end.

Definition fsqrt (a : num) : num :=
  match a with
  | Fin x => if Rlt_dec x 0 then NaN else Fin (sqrt x)
  | PInf => PInf
  | MInf | NaN => NaN
  end.

Definition farctan (a : num) : num :=
  match a with
  | Fin x => Fin (atan x)
  | PInf => Fin (PI / 2)
  | MInf => Fin (- (PI / 2))
  | NaN => NaN
  end.

(** Python's [a != b] on floats: [NaN] differs from everything. *)
Definition py_ne (a b : num) : bool :=
  match a, b with
  | Fin x, Fin y => if Req_dec_T x y then false else true
  | PInf, PInf | MInf, MInf => false
  | _, _ => true
  end.

End Num.

Export Num.

(** ** numpy arrays of rank two *)

Module Np.

(** A rank-two [ndarray]: its shape and its items, read by row and column.
    Only the items inside the shape are meaningful. *)
Record ndarray (A : Type) : Type := mk_ndarray {
  nrows : nat;
  ncols : nat;
  item : nat -> nat -> A
}.

Definition in_shape {A : Type} (a : ndarray A) (j i : nat) : bool :=
  (j <? nrows a)%nat && (i <? ncols a)%nat.

(** [np.zeros((r, c), dtype='float')]; a negative dimension is refused. *)
Definition zeros (r c : Z) : result (ndarray num) :=
  if ((r <? 0) || (c <? 0))%Z then Raise ValueError
  else Ok (mk_ndarray (Z.to_nat r) (Z.to_nat c) (fun _ _ => Fin 0)).

(** An array holding [v] in every cell. *)
Definition full {A : Type} (r c : nat) (v : A) : ndarray A :=
  mk_ndarray r c (fun _ _ => v).

(** [a[j, i] = v] for indices that are not negative; outside the shape
    numpy raises [IndexError]. *)
Definition setitem {A : Type} (a : ndarray A) (j i : nat) (v : A)
  : result (ndarray A) :=
  if in_shape a j i
  then Ok (mk_ndarray (nrows a) (ncols a)
             (fun j' i' => if ((j' =? j) && (i' =? i))%nat then v
                           else item a j' i'))
  else Raise IndexError.

(** [range(n)]: empty when [n] is not positive. *)
Definition range (n : Z) : list nat := seq 0 (Z.to_nat n).

Definition map_items {A B : Type} (f : A -> B) (a : ndarray A) : ndarray B :=
  mk_ndarray (nrows a) (ncols a) (fun j i => f (item a j i)).

(** Accumulation of [f 0 + ... + f (n-1)] from zero. *)
Fixpoint sum_upto (n : nat) (f : nat -> num) : num :=
  match n with
  | O => Fin 0
  | S k => fadd (sum_upto k f) (f k)
  end.

(** [np.sum(a)] of a float array: all items, row after row (over the
    extended reals the order of accumulation does not change the total). *)
Definition sum (a : ndarray num) : num :=
  sum_upto (nrows a) (fun j => sum_upto (ncols a) (fun i => item a j i)).

(** [np.sum(a)] of an integer array (no overflow: the accumulator is a
    machine integer far wider than [int8] times the number of cells). *)
Fixpoint isum_upto (n : nat) (f : nat -> Z) : Z :=
  match n with
  | O => 0%Z
  | S k => (isum_upto k f + f k)%Z
  end.

Definition isum (a : ndarray Z) : Z :=
  isum_upto (nrows a) (fun j => isum_upto (ncols a) (fun i => item a j i)).

(** numpy broadcasting of one axis: equal lengths, or one of them is 1. *)
Definition broadcast (m n : nat) : option nat :=
  if (m =? n)%nat then Some m
  else if (m =? 1)%nat then Some n
  else if (n =? 1)%nat then Some m
  else None.

Definition bindex (len k : nat) : nat := if (len =? 1)%nat then O else k.

(** [np.multiply(x, w)] of an integer array by a float array. *)
Definition multiply (x : ndarray Z) (w : ndarray num) : result (ndarray num) :=
  match broadcast (nrows x) (nrows w), broadcast (ncols x) (ncols w) with
  | Some r, Some c =>
      Ok (mk_ndarray r c
            (fun j i =>
               fmul (of_Z (item x (bindex (nrows x) j) (bindex (ncols x) i)))
                    (item w (bindex (nrows w) j) (bindex (ncols w) i))))
  | _, _ => Raise ValueError
  end.

(** [np.linalg.norm(a)] of a real matrix: the square root of the sum of
    the squared items. *)
Definition norm (a : ndarray num) : num :=
  fsqrt (sum (map_items (fun v => fmul v v) a)).

(** [a /= d] with a scalar [d]. *)
Definition idiv (a : ndarray num) (d : num) : ndarray num :=
  map_items (fun v => np_div v d) a.

(** [c * a] with a scalar [c]. *)
Definition scale (c : num) (a : ndarray num) : ndarray num :=
  map_items (fun v => fmul c v) a.

End Np.

(** The accumulation of [Np.sum_upto] over the reals, for arrays whose
    items are finite. *)
Fixpoint rsum (n : nat) (f : nat -> R) : R :=
  match n with
  | O => 0%R
  | S k => (rsum k f + f k)%R
  end.

Definition rsum2 (r c : nat) (g : nat -> nat -> R) : R :=
  rsum r (fun j => rsum c (fun i => g j i)).

(** Inside its shape, the array [a] holds the finite values [g j i]. *)
Definition finite_items (a : Np.ndarray num) (g : nat -> nat -> R) : Prop :=
  forall j i, (j < Np.nrows a)%nat -> (i < Np.ncols a)%nat ->
              Np.item a j i = Fin (g j i).

(** A grid of the given shape whose weights are finite and add up to
    zero. *)
Definition balanced (rows cols : nat) (w : Np.ndarray num) : Prop :=
  exists g, Np.nrows w = rows /\ Np.ncols w = cols /\
            finite_items w g /\ rsum2 rows cols g = 0%R.

(** An integer array of the given shape holding [k] in every cell. *)
Definition uniform (rows cols : nat) (x : Np.ndarray Z) (k : Z) : Prop :=
  Np.nrows x = rows /\ Np.ncols x = cols /\
  forall j i, (j < rows)%nat -> (i < cols)%nat -> Np.item x j i = k.

(** ** ROS messages ([std_msgs], [geometry_msgs]) *)

Module Msg.

(** [rospy.Time]; the default-constructed time is zero. *)
Record Time : Type := mk_Time { secs : Z; nsecs : Z }.
Definition Time0 : Time := mk_Time 0 0.

(** [std_msgs/Header] ([seq] is assigned by the transport on publish). *)
Record Header : Type := mk_Header { stamp : Time; frame_id : string }.
Definition Header0 : Header := mk_Header Time0 EmptyString.

Module Vector3.
Record t : Type := mk { x : num; y : num; z : num }.
Definition zero : t := mk (Fin 0) (Fin 0) (Fin 0).
End Vector3.

(** [geometry_msgs/Point] has the fields of [Vector3]. *)
Module Point := Vector3.

Module Quaternion.
Record t : Type := mk { x : num; y : num; z : num; w : num }.
Definition zero : t := mk (Fin 0) (Fin 0) (Fin 0) (Fin 0).
End Quaternion.

Definition covariance0 : list num := repeat (Fin 0) 36.

Record Pose : Type := mk_Pose { position : Point.t; orientation : Quaternion.t }.
Record Twist : Type := mk_Twist { linear : Vector3.t; angular : Vector3.t }.

Record PoseStamped : Type := mk_PoseStamped {
  ps_header : Header; ps_pose : Pose }.
Record TwistStamped : Type := mk_TwistStamped {
  ts_header : Header; ts_twist : Twist }.
(** [geometry_msgs/Accel] has the fields of [Twist]. *)
Record AccelStamped : Type := mk_AccelStamped {
  as_header : Header; as_accel : Twist }.

Record PoseWithCovarianceStamped : Type := mk_PoseWithCovarianceStamped {
  pcs_header : Header; pcs_pose : Pose; pcs_covariance : list num }.
Record TwistWithCovarianceStamped : Type := mk_TwistWithCovarianceStamped {
  tcs_header : Header; tcs_twist : Twist; tcs_covariance : list num }.
Record AccelWithCovarianceStamped : Type := mk_AccelWithCovarianceStamped {
  acs_header : Header; acs_accel : Twist; acs_covariance : list num }.

Definition TwistStamped0 : TwistStamped :=
  mk_TwistStamped Header0 (mk_Twist Vector3.zero Vector3.zero).

End Msg.

(** ** [picam_flow_class.py]: class [AnalyzeFlow] *)

Module PicamFlow.

Import Msg.

(** One motion-vector frame: the fields ['x'], ['y'] and ['sad'] of the
    structured array handed to [analyse]. *)
Module Frame.
Record t : Type := mk { x : Np.ndarray Z; y : Np.ndarray Z; sad : Np.ndarray Z }.
End Frame.

(** The attitude message as [imu_callback] reads it: [msg.header.time] and
    [msg.orientation]. *)
Record ImuHeader : Type := mk_ImuHeader { time : num }.
Record Imu : Type := mk_Imu { header : ImuHeader; imu_orientation : Quaternion.t }.

(** The attributes of an [AnalyzeFlow] object.  [imu_time] is not assigned
    by [setup]: it is [None] until [imu_callback] stores it.  [pub] is the
    list of the messages published so far. *)
Record AnalyzeFlow : Type := mk_AnalyzeFlow {
  z_filter_x : Np.ndarray num;
  z_filter_y : Np.ndarray num;
  yaw_filter_x : Np.ndarray num;
  yaw_filter_y : Np.ndarray num;
  ang_vx : num;
  ang_vy : num;
  prev_angx : num;
  prev_angy : num;
  prev_imu_time : num;
  imu_time : option num;
  prev_time : num;
  ang_coefficient : num;
  x_motion : num;
  y_motion : num;
  z_motion : num;
  yaw_motion : num;
  max_flow : num;
  norm_flow_to_cm : num;
  flow_coeff : num;
  pub : list TwistStamped;
  alpha : num;
  velocity : TwistStamped
}.

(** The body of the two nested loops of [get_z_filter], for one cell. *)
Definition fill_cell (mid_col mid_row : num) (i : nat)
           (zs : Np.ndarray num * Np.ndarray num) (j : nat)
  : result (Np.ndarray num * Np.ndarray num) :=
  let x := fsub (of_Z (Z.of_nat i)) mid_col in
  let y := fsub (of_Z (Z.of_nat j)) mid_row in
  zx <- Np.setitem (fst zs) j i x ;;
  zy <- Np.setitem (snd zs) j i y ;;
  Ok (zx, zy).

(** [get_z_filter]: returns the two attributes it assigns,
    [(z_filter_x, z_filter_y)].  [height/16] and [width/16] are integer
    divisions (Python 2). *)
Definition get_z_filter (wh : Z * Z)
  : result (Np.ndarray num * Np.ndarray num) :=
  let '(width, height) := wh in
  if negb ((width mod 16 =? 0) && (height mod 16 =? 0))%Z
  then Raise AssertionError
  else
    let num_rows := (height / 16)%Z in
    let num_cols := (width / 16)%Z in
    mid_row <- py_div (of_Z (num_rows - 1)) (Fin 2) ;;
    mid_col <- py_div (of_Z (num_cols - 1)) (Fin 2) ;;
    zx0 <- Np.zeros num_rows (num_cols + 1) ;;
    zy0 <- Np.zeros num_rows (num_cols + 1) ;;
    zs <- for_each (Np.range num_cols)
            (fun zs i => for_each (Np.range num_rows)
                           (fill_cell mid_col mid_row i) zs)
            (zx0, zy0) ;;
    Ok (Np.idiv (fst zs) (Np.norm (fst zs)),
        Np.idiv (snd zs) (Np.norm (snd zs))).

(** [get_yaw_filter]: from the divergence grids, the two attributes it
    assigns, [(yaw_filter_x, yaw_filter_y)]; its argument is not used. *)
Definition get_yaw_filter (wh : Z * Z) (zs : Np.ndarray num * Np.ndarray num)
  : Np.ndarray num * Np.ndarray num :=
  (snd zs, Np.scale (of_Z (-1)) (fst zs)).

(** [setup] on a fresh object; [now] is the reading of [time.time()].  The
    [pub] argument is overwritten by a new publisher, and [velocity] is
    created because that publisher is not [None]. *)
Definition setup (camera_wh : Z * Z) (pub : option (list TwistStamped))
           (flow_scale : num) (now : num) : result AnalyzeFlow :=
  zs <- get_z_filter camera_wh ;;
  let ys := get_yaw_filter camera_wh zs in
  q <- py_div (of_Z (fst camera_wh)) (Fin 16) ;;
  q' <- py_div (fmul q (of_Z (snd camera_wh))) (Fin 16) ;;
  let max_flow := fmul q' (of_Z (2 ^ 7)) in
  let norm_flow_to_cm := flow_scale in
  flow_coeff <- py_div norm_flow_to_cm max_flow ;;
  Ok {| z_filter_x := fst zs;
        z_filter_y := snd zs;
        yaw_filter_x := fst ys;
        yaw_filter_y := snd ys;
        ang_vx := of_Z 0;
        ang_vy := of_Z 0;
        prev_angx := of_Z 0;
        prev_angy := of_Z 0;
        prev_imu_time := of_Z 0;
        imu_time := None;
        prev_time := now;
        ang_coefficient := Fin 1;
        x_motion := of_Z 0;
        y_motion := of_Z 0;
        z_motion := of_Z 0;
        yaw_motion := of_Z 0;
        max_flow := max_flow;
        norm_flow_to_cm := norm_flow_to_cm;
        flow_coeff := flow_coeff;
        pub := [];
        alpha := Fin (3 / 10);
        velocity := TwistStamped0 |}.

(** Attribute updates performed by [imu_callback] and [analyse]. *)
Definition store_baseline (self : AnalyzeFlow) (angx angy t : num)
  : AnalyzeFlow :=
  {| z_filter_x := z_filter_x self;
     z_filter_y := z_filter_y self;
     yaw_filter_x := yaw_filter_x self;
     yaw_filter_y := yaw_filter_y self;
     ang_vx := ang_vx self;
     ang_vy := ang_vy self;
     prev_angx := angx;
     prev_angy := angy;
     prev_imu_time := prev_imu_time self;
     imu_time := Some t;
     prev_time := prev_time self;
     ang_coefficient := ang_coefficient self;
     x_motion := x_motion self;
     y_motion := y_motion self;
     z_motion := z_motion self;
     yaw_motion := yaw_motion self;
     max_flow := max_flow self;
     norm_flow_to_cm := norm_flow_to_cm self;
     flow_coeff := flow_coeff self;
     pub := pub self;
     alpha := alpha self;
     velocity := velocity self |}.

Definition store_rates (self : AnalyzeFlow) (vx vy : num) : AnalyzeFlow :=
  {| z_filter_x := z_filter_x self;
     z_filter_y := z_filter_y self;
     yaw_filter_x := yaw_filter_x self;
     yaw_filter_y := yaw_filter_y self;
     ang_vx := vx;
     ang_vy := vy;
     prev_angx := prev_angx self;
     prev_angy := prev_angy self;
     prev_imu_time := prev_imu_time self;
     imu_time := imu_time self;
     prev_time := prev_time self;
     ang_coefficient := ang_coefficient self;
     x_motion := x_motion self;
     y_motion := y_motion self;
     z_motion := z_motion self;
     yaw_motion := yaw_motion self;
     max_flow := max_flow self;
     norm_flow_to_cm := norm_flow_to_cm self;
     flow_coeff := flow_coeff self;
     pub := pub self;
     alpha := alpha self;
     velocity := velocity self |}.

Definition store_estimate (self : AnalyzeFlow) (t xm ym zm yawm : num)
           (v : TwistStamped) : AnalyzeFlow :=
  {| z_filter_x := z_filter_x self;
     z_filter_y := z_filter_y self;
     yaw_filter_x := yaw_filter_x self;
     yaw_filter_y := yaw_filter_y self;
     ang_vx := ang_vx self;
     ang_vy := ang_vy self;
     prev_angx := prev_angx self;
     prev_angy := prev_angy self;
     prev_imu_time := prev_imu_time self;
     imu_time := imu_time self;
     prev_time := t;
     ang_coefficient := ang_coefficient self;
     x_motion := xm;
     y_motion := ym;
     z_motion := zm;
     yaw_motion := yawm;
     max_flow := max_flow self;
     norm_flow_to_cm := norm_flow_to_cm self;
     flow_coeff := flow_coeff self;
     pub := pub self ++ [v];
     alpha := alpha self;
     velocity := v |}.

(** Reading an attribute that may not have been assigned yet. *)
Definition getattr {A : Type} (o : option A) : result A :=
  match o with
  | Some a => Ok a
  | None => Raise AttributeError
  end.

Section ImuCallback.

(** [tf.transformations.euler_from_quaternion], a function of the ROS
    [tf] package, applied to the list [[x, y, z, w]].  The module does not
    import [tf]: the name is taken as bound where the callback runs. *)
Variable euler_from_quaternion : list num -> num * num * num.

(** [imu_callback].  The test reads [prev_imu_time]; the timestamp of a
    sample is stored in [imu_time]. *)
Definition imu_callback (self : AnalyzeFlow) (msg : Imu) : result AnalyzeFlow :=
  let oq := imu_orientation msg in
  let orientation_list :=
    [Quaternion.x oq; Quaternion.y oq; Quaternion.z oq; Quaternion.w oq] in
  let '(new_angx, new_angy, new_angz) :=
    euler_from_quaternion orientation_list in
  let curr_time := time (header msg) in
  if py_ne (prev_imu_time self) (of_Z 0)
  then
    t <- getattr (imu_time self) ;;
    vx <- py_div (fsub new_angx (prev_angx self)) (fsub curr_time t) ;;
    vy <- py_div (fsub new_angy (prev_angy self)) (fsub curr_time t) ;;
    Ok (store_baseline (store_rates self vx vy) new_angx new_angy curr_time)
  else
    Ok (store_baseline self new_angx new_angy curr_time).

(** The Euler angles that [imu_callback] computes from a sample. *)
Definition angles_of (msg : Imu) : num * num * num :=
  let oq := imu_orientation msg in
  euler_from_quaternion
    [Quaternion.x oq; Quaternion.y oq; Quaternion.z oq; Quaternion.w oq].

End ImuCallback.

(** [analyse] on one frame; [now] is the reading of [time.time()] and
    [rostime] the one of [rospy.get_rostime()]. *)
Definition analyse (self : AnalyzeFlow) (a : Frame.t) (now : num)
           (rostime : Time) : result AnalyzeFlow :=
  let x := Frame.x a in
  let y := Frame.y a in
  let curr_time := now in
  let diff_time := fsub curr_time (prev_time self) in
  let x_motion :=
    fadd (fsub (of_Z 0) (fmul (of_Z (Np.isum x)) (flow_coeff self)))
         (fmul (farctan (fmul (ang_vx self) diff_time))
               (ang_coefficient self)) in
  let y_motion :=
    fadd (fmul (of_Z (Np.isum y)) (flow_coeff self))
         (fmul (farctan (fmul (ang_vy self) diff_time))
               (ang_coefficient self)) in
  xz <- Np.multiply x (z_filter_x self) ;;
  yz <- Np.multiply y (z_filter_y self) ;;
  let z_motion := fadd (Np.sum xz) (Np.sum yz) in
  xw <- Np.multiply x (yaw_filter_x self) ;;
  yw <- Np.multiply y (yaw_filter_y self) ;;
  let yaw_motion := fadd (Np.sum xw) (Np.sum yw) in
  let v := velocity self in
  let lin := Vector3.mk x_motion y_motion z_motion in
  let ang := Vector3.mk (Vector3.x (angular (ts_twist v)))
                        (Vector3.y (angular (ts_twist v))) yaw_motion in
  let v' := mk_TwistStamped (mk_Header rostime (frame_id (ts_header v)))
                            (mk_Twist lin ang) in
  Ok (store_estimate self curr_time x_motion y_motion z_motion yaw_motion v').

(** The two asynchronous inputs: an attitude sample, or a camera tick with
    its frame and the two (finite) clock readings. *)
Inductive event : Type :=
| ImuSample (msg : Imu)
| CameraTick (a : Frame.t) (now : R) (rostime : Time).

Definition deliver (euler_from_quaternion : list num -> num * num * num)
           (self : AnalyzeFlow) (e : event) : result AnalyzeFlow :=
  match e with
  | ImuSample msg => imu_callback euler_from_quaternion self msg
  | CameraTick a now rostime => analyse self a (Fin now) rostime
  end.

(** The callbacks fired by a sequence of inputs, in order. *)
Definition run (euler_from_quaternion : list num -> num * num * num)
           (self : AnalyzeFlow) (events : list event) : result AnalyzeFlow :=
  for_each events (deliver euler_from_quaternion) self.

(** The weights before normalisation: the offset from the middle column
    (resp. row), and zero in the padding column. *)
Definition offset_x (cols rows j i : nat) : R :=
  if ((i <? cols) && (j <? rows))%nat then (INR i - (INR cols - 1) / 2)%R
  else 0%R.

Definition offset_y (cols rows j i : nat) : R :=
  if ((i <? cols) && (j <? rows))%nat then (INR j - (INR rows - 1) / 2)%R
  else 0%R.

Definition raw_grid (offset : nat -> nat -> R) (cols rows : nat)
           (z : Np.ndarray num) : Prop :=
  Np.nrows z = rows /\ Np.ncols z = S cols /\
  forall j i, Np.item z j i = Fin (offset j i).

(** The object as [setup] leaves it, from the two raw grids. *)
Definition fresh (zx zy : Np.ndarray num) (mf fs now : num) : AnalyzeFlow :=
  {| z_filter_x := Np.idiv zx (Np.norm zx);
     z_filter_y := Np.idiv zy (Np.norm zy);
     yaw_filter_x := Np.idiv zy (Np.norm zy);
     yaw_filter_y := Np.scale (of_Z (-1)) (Np.idiv zx (Np.norm zx));
     ang_vx := Fin 0;
     ang_vy := Fin 0;
     prev_angx := Fin 0;
     prev_angy := Fin 0;
     prev_imu_time := Fin 0;
     imu_time := None;
     prev_time := now;
     ang_coefficient := Fin 1;
     x_motion := Fin 0;
     y_motion := Fin 0;
     z_motion := Fin 0;
     yaw_motion := Fin 0;
     max_flow := mf;
     norm_flow_to_cm := fs;
     flow_coeff := np_div fs mf;
     pub := [];
     alpha := Fin (3 / 10);
     velocity := TwistStamped0 |}.

(** What keeps holding of a configured object while samples and frames
    arrive: the filters and coefficients of [st0], rates at zero,
    [prev_imu_time] at zero and a finite [prev_time]. *)
Definition idle (st0 st : AnalyzeFlow) : Prop :=
  z_filter_x st = z_filter_x st0 /\
  z_filter_y st = z_filter_y st0 /\
  yaw_filter_x st = yaw_filter_x st0 /\
  yaw_filter_y st = yaw_filter_y st0 /\
  flow_coeff st = flow_coeff st0 /\
  ang_coefficient st = ang_coefficient st0 /\
  ang_vx st = Fin 0 /\
  ang_vy st = Fin 0 /\
  prev_imu_time st = Fin 0 /\
  exists t, prev_time st = Fin t.

End PicamFlow.

(** ** [mocap_state_estimator.py]: class [MocapStateEstimator] *)

Module Mocap.

Import Msg.

(** A publisher attribute is [None] until the main program creates the
    publisher; afterwards it holds the messages published so far. *)
Record MocapStateEstimator : Type := mk_MocapStateEstimator {
  mocap_pose_topic : string;
  mocap_twist_topic : string;
  mocap_accel_topic : string;
  posepub : option (list PoseWithCovarianceStamped);
  twistpub : option (list TwistWithCovarianceStamped);
  accelpub : option (list AccelWithCovarianceStamped);
  received_data : bool
}.

(** [__init__] *)
Definition init (rigid_body_name : string) : MocapStateEstimator :=
  {| mocap_pose_topic := "vrpn_client_node/" ++ rigid_body_name ++ "/pose";
     mocap_twist_topic := "vrpn_client_node/" ++ rigid_body_name ++ "/twist";
     mocap_accel_topic := "vrpn_client_node/" ++ rigid_body_name ++ "/accel";
     posepub := None;
     twistpub := None;
     accelpub := None;
     received_data := false |}.

(** The three publishers as the main program creates them. *)
Definition with_publishers (self : MocapStateEstimator) : MocapStateEstimator :=
  {| mocap_pose_topic := mocap_pose_topic self;
     mocap_twist_topic := mocap_twist_topic self;
     mocap_accel_topic := mocap_accel_topic self;
     posepub := Some [];
     twistpub := Some [];
     accelpub := Some [];
     received_data := received_data self |}.

(** [pub.publish(m)]; [None] has no attribute [publish]. *)
Definition publish {M : Type} (pub : option (list M)) (m : M)
  : result (option (list M)) :=
  match pub with
  | Some sent => Ok (Some (sent ++ [m]))
  | None => Raise AttributeError
  end.

(** The message built by [pose_callback]: a default
    [PoseWithCovarianceStamped] with the assigned fields ([orientation.w]
    is not assigned). *)
Definition pose_to_pub (msg : PoseStamped) : PoseWithCovarianceStamped :=
  let p := position (ps_pose msg) in
  let o := orientation (ps_pose msg) in
  mk_PoseWithCovarianceStamped
    (mk_Header (stamp (ps_header msg)) "World")
    (mk_Pose
       (Point.mk (fopp (Point.x p)) (Point.z p) (Point.y p))
       (Quaternion.mk (fopp (Quaternion.x o)) (Quaternion.z o)
                      (Quaternion.y o) (Quaternion.w Quaternion.zero)))
    covariance0.

Definition pose_callback (self : MocapStateEstimator) (msg : PoseStamped)
  : result MocapStateEstimator :=
  p <- publish (posepub self) (pose_to_pub msg) ;;
  Ok {| mocap_pose_topic := mocap_pose_topic self;
        mocap_twist_topic := mocap_twist_topic self;
        mocap_accel_topic := mocap_accel_topic self;
        posepub := p;
        twistpub := twistpub self;
        accelpub := accelpub self;
        received_data := true |}.

(** The message built by [twist_callback]. *)
Definition twist_to_pub (msg : TwistStamped) : TwistWithCovarianceStamped :=
  let l := linear (ts_twist msg) in
  let a := angular (ts_twist msg) in
  mk_TwistWithCovarianceStamped
    (mk_Header (stamp (ts_header msg)) "World")
    (mk_Twist
       (Vector3.mk (fopp (Vector3.x l)) (Vector3.z l) (Vector3.y l))
       (Vector3.mk (fopp (Vector3.x a)) (Vector3.z a) (Vector3.y a)))
    covariance0.

Definition twist_callback (self : MocapStateEstimator) (msg : TwistStamped)
  : result MocapStateEstimator :=
  p <- publish (twistpub self) (twist_to_pub msg) ;;
  Ok {| mocap_pose_topic := mocap_pose_topic self;
        mocap_twist_topic := mocap_twist_topic self;
        mocap_accel_topic := mocap_accel_topic self;
        posepub := posepub self;
        twistpub := p;
        accelpub := accelpub self;
        received_data := received_data self |}.

(** The message built by [accel_callback]: the statement
    [accel_to_pub.header.stamp] only reads the default stamp. *)
Definition accel_to_pub (msg : AccelStamped) : AccelWithCovarianceStamped :=
  let l := linear (as_accel msg) in
  let a := angular (as_accel msg) in
  mk_AccelWithCovarianceStamped
    (mk_Header (stamp Header0) "World")
    (mk_Twist
       (Vector3.mk (fopp (Vector3.x l)) (Vector3.z l) (Vector3.y l))
       (Vector3.mk (fopp (Vector3.x a)) (Vector3.z a) (Vector3.y a)))
    covariance0.

Definition accel_callback (self : MocapStateEstimator) (msg : AccelStamped)
  : result MocapStateEstimator :=
  p <- publish (accelpub self) (accel_to_pub msg) ;;
  Ok {| mocap_pose_topic := mocap_pose_topic self;
        mocap_twist_topic := mocap_twist_topic self;
        mocap_accel_topic := mocap_accel_topic self;
        posepub := posepub self;
        twistpub := twistpub self;
        accelpub := p;
        received_data := received_data self |}.

(** A sample of one of the three kinds, and its callback. *)
Inductive sample : Type :=
| PoseSample (m : PoseStamped)
| TwistSample (m : TwistStamped)
| AccelSample (m : AccelStamped).

Definition deliver (self : MocapStateEstimator) (s : sample)
  : result MocapStateEstimator :=
  match s with
  | PoseSample m => pose_callback self m
  | TwistSample m => twist_callback self m
  | AccelSample m => accel_callback self m
  end.

End Mocap.

(** ** Views of frames, objects and runs used by the properties *)

(** An array of the given shape. *)
Definition shaped {A : Type} (rows cols : nat) (x : Np.ndarray A) : Prop :=
  Np.nrows x = rows /\ Np.ncols x = cols.

(** The dot product of an integer array with real weights, over a shape. *)
Definition dot (rows cols : nat) (x : Np.ndarray Z) (g : nat -> nat -> R) : R :=
  rsum2 rows cols (fun j i => (IZR (Np.item x j i) * g j i)%R).

(** An object whose four filters are the offsets divided by the norms [nx]
    and [ny], with held rates at zero, a finite [prev_time] and the
    coefficients [fc] and 1. *)
Definition configured (cols rows : nat) (nx ny fc : R)
           (st : PicamFlow.AnalyzeFlow) : Prop :=
  shaped rows (S cols) (PicamFlow.z_filter_x st) /\
  shaped rows (S cols) (PicamFlow.z_filter_y st) /\
  shaped rows (S cols) (PicamFlow.yaw_filter_x st) /\
  shaped rows (S cols) (PicamFlow.yaw_filter_y st) /\
  (forall j i, Np.item (PicamFlow.z_filter_x st) j i
               = Fin (PicamFlow.offset_x cols rows j i / nx)%R) /\
  (forall j i, Np.item (PicamFlow.z_filter_y st) j i
               = Fin (PicamFlow.offset_y cols rows j i / ny)%R) /\
  (forall j i, Np.item (PicamFlow.yaw_filter_x st) j i
               = Fin (PicamFlow.offset_y cols rows j i / ny)%R) /\
  (forall j i, Np.item (PicamFlow.yaw_filter_y st) j i
               = Fin (- (PicamFlow.offset_x cols rows j i / nx))%R) /\
  PicamFlow.ang_vx st = Fin 0 /\
  PicamFlow.ang_vy st = Fin 0 /\
  (exists t, PicamFlow.prev_time st = Fin t) /\
  PicamFlow.flow_coeff st = Fin fc /\
  PicamFlow.ang_coefficient st = Fin 1.

(** The sum of the squared offsets of a grid. *)
Definition sumsq (offset : nat -> nat -> R) (cols rows : nat) : R :=
  rsum2 rows (S cols) (fun j i => (offset j i * offset j i)%R).

(** The readings of [rospy.get_rostime()] at the camera ticks of a run. *)
Fixpoint tick_stamps (events : list PicamFlow.event) : list Msg.Time :=
  match events with
  | [] => []
  | PicamFlow.ImuSample _ :: events' => tick_stamps events'
  | PicamFlow.CameraTick _ _ rostime :: events' => rostime :: tick_stamps events'
  end.



(** The samples of a mocap stream, handed to their callbacks in order. *)
Definition mocap_run (self : Mocap.MocapStateEstimator)
           (samples : list Mocap.sample) : result Mocap.MocapStateEstimator :=
  for_each samples Mocap.deliver self.

Fixpoint poses_of (samples : list Mocap.sample) : list Msg.PoseStamped :=
  match samples with
  | [] => []
  | Mocap.PoseSample m :: l => m :: poses_of l
  | _ :: l => poses_of l
  end.

Fixpoint twists_of (samples : list Mocap.sample) : list Msg.TwistStamped :=
  match samples with
  | [] => []
  | Mocap.TwistSample m :: l => m :: twists_of l
  | _ :: l => twists_of l
  end.

Fixpoint accels_of (samples : list Mocap.sample) : list Msg.AccelStamped :=
  match samples with
  | [] => []
  | Mocap.AccelSample m :: l => m :: accels_of l
  | _ :: l => accels_of l
  end.

(** A republished message read back as a sample of the source kind. *)
Definition pose_read_back (m : Msg.PoseWithCovarianceStamped) : Msg.PoseStamped :=
  Msg.mk_PoseStamped (Msg.pcs_header m) (Msg.pcs_pose m).

Definition twist_read_back (m : Msg.TwistWithCovarianceStamped)
  : Msg.TwistStamped :=
  Msg.mk_TwistStamped (Msg.tcs_header m) (Msg.tcs_twist m).

Definition accel_read_back (m : Msg.AccelWithCovarianceStamped)
  : Msg.AccelStamped :=
  Msg.mk_AccelStamped (Msg.acs_header m) (Msg.acs_accel m).

(** * Properties *)

Unset Implicit Arguments.

(** ** Arithmetic on finite values *)

Section FiniteArithmetic.

Open Scope R_scope.

Lemma py_div_fin (a b : R) : b <> 0 -> py_div (Fin a) (Fin b) = Ok (Fin (a / b)).
Proof.
  intros Hb. unfold py_div, np_div.
  destruct (Req_dec_T b 0) as [E | _]; [contradiction | reflexivity].
Qed.

Lemma np_div_fin (a b : R) : b <> 0 -> np_div (Fin a) (Fin b) = Fin (a / b).
Proof.
  intros Hb. unfold np_div.
  destruct (Req_dec_T b 0) as [E | _]; [contradiction | reflexivity].
Qed.

Lemma np_div_zero_zero : np_div (Fin 0) (Fin 0) = NaN.
Proof.
  unfold np_div.
  destruct (Req_dec_T 0 0) as [_ | N]; [reflexivity | now elim N].
Qed.

Lemma fsqrt_fin (a : R) : 0 <= a -> fsqrt (Fin a) = Fin (sqrt a).
Proof.
  intros Ha. unfold fsqrt.
  destruct (Rlt_dec a 0) as [L | _]; [lra | reflexivity].
Qed.

Lemma fmul_minus_one (v : num) : fmul (of_Z (-1)) v = fopp v.
Proof.
  unfold of_Z. destruct v as [r | | |]; simpl; trivial.
  - f_equal. lra.
  - unfold scale_inf.
    destruct (Req_dec_T (-1) 0) as [E | _]; [lra |].
    destruct (Rlt_dec 0 (-1)) as [L | _]; [lra | reflexivity].
  - unfold scale_inf.
    destruct (Req_dec_T (-1) 0) as [E | _]; [lra |].
    destruct (Rlt_dec 0 (-1)) as [L | _]; [lra | reflexivity].
Qed.

Lemma py_ne_zero_zero : py_ne (of_Z 0) (of_Z 0) = false.
Proof.
  unfold py_ne, of_Z.
  destruct (Req_dec_T 0 0) as [_ | N]; [reflexivity | now elim N].
Qed.

End FiniteArithmetic.

(** ** Sums over arrays whose items are finite *)

Section Sums.

Open Scope R_scope.

Lemma sum_upto_fin (n : nat) (f : nat -> num) (g : nat -> R) :
  (forall k, (k < n)%nat -> f k = Fin (g k)) ->
  Np.sum_upto n f = Fin (rsum n g).
Proof.
  induction n as [| n IH]; intros H; simpl.
  - reflexivity.
  - rewrite IH by (intros k Hk; apply H; lia).
    rewrite (H n) by lia. reflexivity.
Qed.

Lemma rsum_ext (n : nat) (f g : nat -> R) :
  (forall k, (k < n)%nat -> f k = g k) -> rsum n f = rsum n g.
Proof.
  induction n as [| n IH]; intros H; simpl.
  - reflexivity.
  - rewrite IH by (intros k Hk; apply H; lia).
    rewrite (H n) by lia. reflexivity.
Qed.

Lemma rsum_scal (c : R) (n : nat) (f : nat -> R) :
  rsum n (fun k => c * f k) = c * rsum n f.
Proof.
  induction n as [| n IH]; simpl; [ring | rewrite IH; ring].
Qed.

Lemma rsum_plus (n : nat) (f g : nat -> R) :
  rsum n (fun k => f k + g k) = rsum n f + rsum n g.
Proof.
  induction n as [| n IH]; simpl; [ring | rewrite IH; ring].
Qed.

Lemma rsum_const (c : R) (n : nat) : rsum n (fun _ => c) = INR n * c.
Proof.
  induction n as [| n IH].
  - simpl. ring.
  - change (rsum (S n) (fun _ => c)) with (rsum n (fun _ => c) + c).
    rewrite IH, S_INR. ring.
Qed.

Lemma rsum_zero (n : nat) (f : nat -> R) :
  (forall k, (k < n)%nat -> f k = 0) -> rsum n f = 0.
Proof.
  intros H. rewrite (rsum_ext n f (fun _ => 0) H), rsum_const. ring.
Qed.

Lemma rsum_nonneg (n : nat) (f : nat -> R) :
  (forall k, (k < n)%nat -> 0 <= f k) -> 0 <= rsum n f.
Proof.
  induction n as [| n IH]; intros H; simpl.
  - lra.
  - assert (0 <= rsum n f) by (apply IH; intros; apply H; lia).
    assert (0 <= f n) by (apply H; lia). lra.
Qed.

Lemma rsum_pos (n : nat) (f : nat -> R) (k0 : nat) :
  (forall k, (k < n)%nat -> 0 <= f k) -> (k0 < n)%nat -> 0 < f k0 ->
  0 < rsum n f.
Proof.
  induction n as [| n IH]; intros H Hk Hpos; [lia |]. simpl.
  assert (Hn : 0 <= f n) by (apply H; lia).
  destruct (Nat.eq_dec k0 n) as [-> | Hne].
  - assert (0 <= rsum n f) by (apply rsum_nonneg; intros; apply H; lia). lra.
  - assert (0 < rsum n f) by (apply IH; [intros; apply H; lia | lia | exact Hpos]).
    lra.
Qed.

(** Offsets from the middle of [0 .. n-1] cancel. *)
Lemma rsum_id (n : nat) : 2 * rsum n (fun k => INR k) = INR n * (INR n - 1).
Proof.
  induction n as [| n IH].
  - simpl. ring.
  - change (rsum (S n) (fun k => INR k)) with (rsum n (fun k => INR k) + INR n).
    rewrite S_INR. lra.
Qed.

Lemma rsum_centered (n : nat) :
  rsum n (fun k => INR k - (INR n - 1) / 2) = 0.
Proof.
  assert (E : rsum n (fun k => INR k - (INR n - 1) / 2)
              = rsum n (fun k => INR k) + rsum n (fun _ => - ((INR n - 1) / 2))).
  { rewrite <- rsum_plus. apply rsum_ext. intros. ring. }
  rewrite E, rsum_const. pose proof (rsum_id n). lra.
Qed.

End Sums.

(** ** The loops of [get_z_filter] *)

Import Msg PicamFlow.

Ltac bool_cases :=
  repeat match goal with
  | |- context [Nat.eqb ?a ?b] => destruct (Nat.eqb_spec a b)
  | |- context [Nat.leb ?a ?b] => destruct (Nat.leb_spec a b)
  | |- context [Nat.ltb ?a ?b] => destruct (Nat.ltb_spec a b)
  end; cbn [andb orb negb]; try reflexivity; try lia.

Section FillLoops.

Variables mid_col mid_row : num.

(** The inner loop, over the rows [s .. s+n-1] of column [i]. *)
Lemma fill_rows_spec (i : nat) :
  forall (n s : nat) (zs : Np.ndarray num * Np.ndarray num),
    (s + n <= Np.nrows (fst zs))%nat ->
    Np.nrows (snd zs) = Np.nrows (fst zs) ->
    (i < Np.ncols (fst zs))%nat ->
    Np.ncols (snd zs) = Np.ncols (fst zs) ->
    exists zs',
      for_each (seq s n) (fill_cell mid_col mid_row i) zs = Ok zs' /\
      Np.nrows (fst zs') = Np.nrows (fst zs) /\
      Np.ncols (fst zs') = Np.ncols (fst zs) /\
      Np.nrows (snd zs') = Np.nrows (fst zs) /\
      Np.ncols (snd zs') = Np.ncols (fst zs) /\
      (forall j' i',
          Np.item (fst zs') j' i' =
          if ((i' =? i) && (s <=? j') && (j' <? s + n))%nat
          then fsub (of_Z (Z.of_nat i)) mid_col
          else Np.item (fst zs) j' i') /\
      (forall j' i',
          Np.item (snd zs') j' i' =
          if ((i' =? i) && (s <=? j') && (j' <? s + n))%nat
          then fsub (of_Z (Z.of_nat j')) mid_row
          else Np.item (snd zs) j' i').
Proof.
  induction n as [| n IH]; intros s zs Hr Hr' Hc Hc'.
  - exists zs. simpl. repeat split; trivial; intros; bool_cases.
  - simpl. unfold fill_cell at 1. unfold Np.setitem, Np.in_shape.
    rewrite Hr', Hc'.
    assert (Hs : (s <? Np.nrows (fst zs))%nat = true) by (apply Nat.ltb_lt; lia).
    assert (Hi : (i <? Np.ncols (fst zs))%nat = true) by (apply Nat.ltb_lt; lia).
    rewrite Hs, Hi. cbn [andb bind].
    match goal with
    | |- exists zs', for_each _ _ ?acc = _ /\ _ =>
        destruct (IH (S s) acc) as (zs' & E & R1 & C1 & R2 & C2 & Ix & Iy);
          cbn [fst snd Np.nrows Np.ncols]; try lia
    end.
    cbn [fst snd Np.nrows Np.ncols Np.item] in *.
    exists zs'. rewrite E, R1, C1, R2, C2.
    repeat split; trivial; intros j' i'.
    + rewrite Ix. bool_cases.
    + rewrite Iy. bool_cases. now subst.
Qed.

(** The outer loop, over the columns [s .. s+n-1], each over [rows] rows. *)
Lemma fill_cols_spec (rows : nat) :
  forall (n s : nat) (zs : Np.ndarray num * Np.ndarray num),
    Np.nrows (fst zs) = rows ->
    Np.nrows (snd zs) = rows ->
    (s + n <= Np.ncols (fst zs))%nat ->
    Np.ncols (snd zs) = Np.ncols (fst zs) ->
    exists zs',
      for_each (seq s n)
        (fun zs i => for_each (seq 0 rows) (fill_cell mid_col mid_row i) zs)
        zs = Ok zs' /\
      Np.nrows (fst zs') = rows /\
      Np.ncols (fst zs') = Np.ncols (fst zs) /\
      Np.nrows (snd zs') = rows /\
      Np.ncols (snd zs') = Np.ncols (fst zs) /\
      (forall j' i',
          Np.item (fst zs') j' i' =
          if ((s <=? i') && (i' <? s + n) && (j' <? rows))%nat
          then fsub (of_Z (Z.of_nat i')) mid_col
          else Np.item (fst zs) j' i') /\
      (forall j' i',
          Np.item (snd zs') j' i' =
          if ((s <=? i') && (i' <? s + n) && (j' <? rows))%nat
          then fsub (of_Z (Z.of_nat j')) mid_row
          else Np.item (snd zs) j' i').
Proof.
  induction n as [| n IH]; intros s zs Hr Hr' Hc Hc'.
  - exists zs. simpl. repeat split; trivial; intros; bool_cases.
  - simpl.
    destruct (fill_rows_spec s rows 0%nat zs)
      as (zs1 & E1 & R1 & C1 & R2 & C2 & Ix1 & Iy1); try lia.
    rewrite E1. simpl.
    destruct (IH (S s) zs1) as (zs' & E & R1' & C1' & R2' & C2' & Ix & Iy);
      try lia.
    exists zs'. rewrite E.
    repeat split; try lia; intros j' i'.
    + rewrite Ix, Ix1. bool_cases. now subst.
    + rewrite Iy, Iy1. bool_cases.
Qed.

End FillLoops.

(** ** The grids built by [get_z_filter] *)

Section FilterBank.

Open Scope R_scope.

Lemma IZR_to_nat (z : Z) : (0 <= z)%Z -> IZR z = INR (Z.to_nat z).
Proof. intros Hz. rewrite INR_IZR_INZ, Z2Nat.id; trivial. Qed.

(** For dimensions that are not negative and are multiples of 16,
    [get_z_filter] returns the raw grids divided by their norms. *)
Lemma get_z_filter_ok (width height : Z) :
  (0 <= width)%Z -> (0 <= height)%Z ->
  (width mod 16 = 0)%Z -> (height mod 16 = 0)%Z ->
  exists zx zy,
    get_z_filter (width, height)
    = Ok (Np.idiv zx (Np.norm zx), Np.idiv zy (Np.norm zy)) /\
    raw_grid (offset_x (Z.to_nat (width / 16)) (Z.to_nat (height / 16)))
             (Z.to_nat (width / 16)) (Z.to_nat (height / 16)) zx /\
    raw_grid (offset_y (Z.to_nat (width / 16)) (Z.to_nat (height / 16)))
             (Z.to_nat (width / 16)) (Z.to_nat (height / 16)) zy.
Proof.
  intros Hw Hh Mw Mh. unfold get_z_filter. rewrite Mw, Mh. cbn [Z.eqb andb negb].
  assert (Hc : (0 <= width / 16)%Z) by (apply Z.div_pos; lia).
  assert (Hr : (0 <= height / 16)%Z) by (apply Z.div_pos; lia).
  unfold of_Z. rewrite !py_div_fin by lra. cbn [bind].
  unfold Np.zeros.
  replace (height / 16 <? 0)%Z with false by (symmetry; apply Z.ltb_ge; lia).
  replace (width / 16 + 1 <? 0)%Z with false by (symmetry; apply Z.ltb_ge; lia).
  cbn [orb bind]. unfold Np.range.
  set (rows := Z.to_nat (height / 16)). set (cols := Z.to_nat (width / 16)).
  match goal with
  | |- context [for_each (seq 0 cols) ?body ?acc] =>
      destruct (fill_cols_spec (Fin (IZR (width / 16 - 1) / 2))
                  (Fin (IZR (height / 16 - 1) / 2)) rows cols 0%nat acc)
        as (zs & E & R1 & C1 & R2 & C2 & Ix & Iy);
        cbn [fst snd Np.nrows Np.ncols]; try reflexivity
  end.
  { replace (width / 16 + 1)%Z with (Z.succ (width / 16)) by lia.
    rewrite Z2Nat.inj_succ by lia. fold cols. lia. }
  fold rows in E. rewrite E. cbn [bind].
  cbn [fst snd Np.nrows Np.ncols Np.item] in C1, C2, Ix, Iy.
  assert (Hcols : Z.to_nat (width / 16 + 1) = S cols).
  { replace (width / 16 + 1)%Z with (Z.succ (width / 16)) by lia.
    now rewrite Z2Nat.inj_succ by lia. }
  exists (fst zs), (snd zs). split; [reflexivity |].
  split; (split; [assumption | split; [congruence |]]); intros j i.
  - rewrite Ix. cbn [Nat.leb Nat.add andb]. unfold offset_x.
    destruct ((i <? cols)%nat && (j <? rows)%nat); [| reflexivity].
    unfold fsub, fopp, fadd, of_Z. f_equal.
    rewrite minus_IZR, (IZR_to_nat (width / 16)) by lia. fold cols.
    rewrite <- INR_IZR_INZ. lra.
  - rewrite Iy. cbn [Nat.leb Nat.add andb]. unfold offset_y.
    destruct ((i <? cols)%nat && (j <? rows)%nat); [| reflexivity].
    unfold fsub, fopp, fadd, of_Z. f_equal.
    rewrite minus_IZR, (IZR_to_nat (height / 16)) by lia. fold rows.
    rewrite <- INR_IZR_INZ. lra.
Qed.

End FilterBank.

(** ** Arrays of finite items: sums, norms and scalar division *)

Section FiniteArrays.

Open Scope R_scope.

Lemma rsum2_ext (r c : nat) (f g : nat -> nat -> R) :
  (forall j i, (j < r)%nat -> (i < c)%nat -> f j i = g j i) ->
  rsum2 r c f = rsum2 r c g.
Proof.
  intros H. unfold rsum2. apply rsum_ext. intros j Hj.
  apply rsum_ext. intros i Hi. now apply H.
Qed.

Lemma rsum2_scal (k : R) (r c : nat) (g : nat -> nat -> R) :
  rsum2 r c (fun j i => k * g j i) = k * rsum2 r c g.
Proof.
  unfold rsum2. rewrite <- rsum_scal. apply rsum_ext. intros j _.
  apply rsum_scal.
Qed.

Lemma rsum2_zero (r c : nat) (g : nat -> nat -> R) :
  (forall j i, (j < r)%nat -> (i < c)%nat -> g j i = 0) -> rsum2 r c g = 0.
Proof.
  intros H. unfold rsum2. apply rsum_zero. intros j Hj.
  apply rsum_zero. intros i Hi. now apply H.
Qed.

Lemma rsum2_rows_zero (r c : nat) (g : nat -> nat -> R) :
  (forall j, (j < r)%nat -> rsum c (fun i => g j i) = 0) -> rsum2 r c g = 0.
Proof. intros H. unfold rsum2. now apply rsum_zero. Qed.

Lemma rsum2_pos (r c : nat) (g : nat -> nat -> R) (j0 i0 : nat) :
  (forall j i, 0 <= g j i) -> (j0 < r)%nat -> (i0 < c)%nat -> 0 < g j0 i0 ->
  0 < rsum2 r c g.
Proof.
  intros Hnn Hj Hi Hpos. unfold rsum2.
  apply rsum_pos with (k0 := j0); trivial.
  - intros j _. apply rsum_nonneg. intros; apply Hnn.
  - apply rsum_pos with (k0 := i0); trivial.
Qed.

Lemma sum_finite (a : Np.ndarray num) (g : nat -> nat -> R) :
  finite_items a g -> Np.sum a = Fin (rsum2 (Np.nrows a) (Np.ncols a) g).
Proof.
  intros H. unfold Np.sum, rsum2.
  apply sum_upto_fin. intros j Hj.
  apply sum_upto_fin. intros i Hi. now apply H.
Qed.

Lemma norm_finite (a : Np.ndarray num) (g : nat -> nat -> R) :
  finite_items a g ->
  Np.norm a
  = Fin (sqrt (rsum2 (Np.nrows a) (Np.ncols a) (fun j i => g j i * g j i))).
Proof.
  intros H. unfold Np.norm.
  rewrite (sum_finite _ (fun j i => g j i * g j i)).
  - cbn [Np.map_items Np.nrows Np.ncols]. apply fsqrt_fin.
    apply rsum_nonneg. intros j _. apply rsum_nonneg. intros i _. nra.
  - intros j i Hj Hi. cbn [Np.map_items Np.nrows Np.ncols Np.item] in *.
    now rewrite (H j i Hj Hi).
Qed.

Lemma idiv_finite (a : Np.ndarray num) (g : nat -> nat -> R) (n : R) :
  finite_items a g -> n <> 0 ->
  finite_items (Np.idiv a (Fin n)) (fun j i => g j i / n).
Proof.
  intros H Hn j i Hj Hi. cbn [Np.idiv Np.map_items Np.nrows Np.ncols Np.item] in *.
  rewrite (H j i Hj Hi). now apply np_div_fin.
Qed.


(** A grid of zeros divided by its norm holds [NaN] in every cell. *)
Lemma idiv_norm_zero (a : Np.ndarray num) :
  finite_items a (fun _ _ => 0) ->
  forall j i, (j < Np.nrows a)%nat -> (i < Np.ncols a)%nat ->
              Np.item (Np.idiv a (Np.norm a)) j i = NaN.
Proof.
  intros H j i Hj Hi. rewrite (norm_finite a _ H).
  rewrite rsum2_zero by (intros; ring). rewrite sqrt_0.
  cbn [Np.idiv Np.map_items Np.item]. rewrite (H j i Hj Hi).
  apply np_div_zero_zero.
Qed.

End FiniteArrays.

(** ** [setup] and the raw grids *)

Section Setup.

Open Scope R_scope.

Lemma raw_grid_finite (offset : nat -> nat -> R) (cols rows : nat)
      (z : Np.ndarray num) :
  raw_grid offset cols rows z -> finite_items z offset.
Proof. intros (_ & _ & H) j i _ _. apply H. Qed.

(** [setup] succeeds on every resolution whose two dimensions are positive
    multiples of 16. *)
Lemma setup_ok (width height : Z) (p : option (list TwistStamped))
      (fs now : num) :
  (0 < width)%Z -> (0 < height)%Z ->
  (width mod 16 = 0)%Z -> (height mod 16 = 0)%Z ->
  exists zx zy,
    raw_grid (offset_x (Z.to_nat (width / 16)) (Z.to_nat (height / 16)))
             (Z.to_nat (width / 16)) (Z.to_nat (height / 16)) zx /\
    raw_grid (offset_y (Z.to_nat (width / 16)) (Z.to_nat (height / 16)))
             (Z.to_nat (width / 16)) (Z.to_nat (height / 16)) zy /\
    setup (width, height) p fs now
    = Ok (fresh zx zy (Fin (IZR width / 16 * IZR height / 16 * 128)) fs now).
Proof.
  intros Hw Hh Mw Mh.
  destruct (get_z_filter_ok width height) as (zx & zy & E & Rx & Ry);
    try lia; trivial.
  exists zx, zy. repeat split; try apply Rx; try apply Ry.
  unfold setup. rewrite E. cbn [bind fst snd get_yaw_filter].
  unfold of_Z. rewrite py_div_fin by lra. cbn [bind fmul].
  rewrite py_div_fin by lra. cbn [bind fmul].
  assert (P : IZR width / 16 * IZR height / 16 * IZR (2 ^ 7) <> 0).
  { apply IZR_lt in Hw, Hh. change (IZR (2 ^ 7)) with 128.
    apply Rgt_not_eq. apply Rmult_gt_0_compat; [| lra].
    apply Rdiv_lt_0_compat; [| lra].
    apply Rmult_lt_0_compat; [| lra].
    apply Rdiv_lt_0_compat; lra. }
  unfold py_div at 1.
  destruct (Req_dec_T (IZR width / 16 * IZR height / 16 * IZR (2 ^ 7)) 0)
    as [Z0 | _]; [contradiction |].
  cbn [bind]. reflexivity.
Qed.

(** The offsets of one row of the X grid cancel. *)
Lemma offset_x_row_sum (cols rows j : nat) :
  rsum (S cols) (fun i => offset_x cols rows j i) = 0.
Proof.
  cbn [rsum]. unfold offset_x at 2. rewrite Nat.ltb_irrefl. cbn [andb].
  destruct (Nat.ltb_spec j rows) as [Hj | Hj].
  - rewrite (rsum_ext cols _ (fun k => INR k - (INR cols - 1) / 2)).
    + rewrite rsum_centered. ring.
    + intros k Hk. unfold offset_x.
      apply Nat.ltb_lt in Hk, Hj. now rewrite Hk, Hj.
  - rewrite rsum_zero; [ring |]. intros k _. unfold offset_x.
    apply Nat.ltb_ge in Hj. now rewrite Hj, andb_false_r.
Qed.

(** The offsets of the whole Y grid cancel. *)
Lemma offset_y_sum (cols rows : nat) :
  rsum2 rows (S cols) (offset_y cols rows) = 0.
Proof.
  unfold rsum2.
  rewrite (rsum_ext rows _ (fun j => INR cols * (INR j - (INR rows - 1) / 2))).
  - rewrite rsum_scal, rsum_centered. ring.
  - intros j Hj. cbn [rsum]. unfold offset_y at 2.
    rewrite Nat.ltb_irrefl. cbn [andb].
    rewrite (rsum_ext cols _ (fun _ => INR j - (INR rows - 1) / 2)).
    + rewrite rsum_const. ring.
    + intros k Hk. unfold offset_y.
      apply Nat.ltb_lt in Hk, Hj. now rewrite Hk, Hj.
Qed.

Lemma offset_x_sumsq_pos (cols rows : nat) :
  (2 <= cols)%nat -> (1 <= rows)%nat ->
  0 < rsum2 rows (S cols)
        (fun j i => offset_x cols rows j i * offset_x cols rows j i).
Proof.
  intros Hc Hr. apply rsum2_pos with (j0 := 0%nat) (i0 := 0%nat); try lia.
  - intros. nra.
  - unfold offset_x.
    replace (0 <? cols)%nat with true by (symmetry; apply Nat.ltb_lt; lia).
    replace (0 <? rows)%nat with true by (symmetry; apply Nat.ltb_lt; lia).
    cbn [andb INR].
    assert (2 <= INR cols) by (apply le_INR in Hc; simpl in Hc; lra).
    nra.
Qed.

Lemma offset_y_sumsq_pos (cols rows : nat) :
  (1 <= cols)%nat -> (2 <= rows)%nat ->
  0 < rsum2 rows (S cols)
        (fun j i => offset_y cols rows j i * offset_y cols rows j i).
Proof.
  intros Hc Hr. apply rsum2_pos with (j0 := 0%nat) (i0 := 0%nat); try lia.
  - intros. nra.
  - unfold offset_y.
    replace (0 <? cols)%nat with true by (symmetry; apply Nat.ltb_lt; lia).
    replace (0 <? rows)%nat with true by (symmetry; apply Nat.ltb_lt; lia).
    cbn [andb INR].
    assert (2 <= INR rows) by (apply le_INR in Hr; simpl in Hr; lra).
    nra.
Qed.

(** Number of columns and rows of the motion-vector grid. *)
Lemma grid_cols (width : Z) :
  (width mod 16 = 0)%Z -> (32 <= width)%Z -> (2 <= Z.to_nat (width / 16))%nat.
Proof.
  intros M H.
  assert (2 <= width / 16)%Z by (apply Z.div_le_lower_bound; lia). lia.
Qed.

Lemma grid_cols_pos (width : Z) :
  (width mod 16 = 0)%Z -> (16 <= width)%Z -> (1 <= Z.to_nat (width / 16))%nat.
Proof.
  intros M H.
  assert (1 <= width / 16)%Z by (apply Z.div_le_lower_bound; lia). lia.
Qed.

End Setup.

(** ** The filter bank *)

Section FilterBankClaims.

Open Scope R_scope.

(** C8.  [get_z_filter] fails on its [assert] (the spec's
    [InvalidGeometry]) if and only if one of the two dimensions is not a
    multiple of 16; for pixel dimensions (integers that are not negative)
    it has no other failure, and when both are multiples of 16 it returns
    the two weight grids, of [height/16] rows and [width/16 + 1] columns,
    which are all it assigns. *)
Theorem get_z_filter_fails_iff_not_multiple_of_16 (width height : Z) :
  (get_z_filter (width, height) = Raise AssertionError
   <-> ~ ((width mod 16 = 0)%Z /\ (height mod 16 = 0)%Z)) /\
  ((0 <= width)%Z -> (0 <= height)%Z ->
   ((exists e, get_z_filter (width, height) = Raise e)
    <-> ~ ((width mod 16 = 0)%Z /\ (height mod 16 = 0)%Z)) /\
   (forall e, get_z_filter (width, height) = Raise e -> e = AssertionError) /\
   ((width mod 16 = 0)%Z /\ (height mod 16 = 0)%Z ->
    exists zfx zfy,
      get_z_filter (width, height) = Ok (zfx, zfy) /\
      Np.nrows zfx = Z.to_nat (height / 16) /\
      Np.ncols zfx = Z.to_nat (width / 16 + 1) /\
      Np.nrows zfy = Z.to_nat (height / 16) /\
      Np.ncols zfy = Z.to_nat (width / 16 + 1))).
Proof.
  assert (Bad : ~ ((width mod 16 = 0)%Z /\ (height mod 16 = 0)%Z) ->
                get_z_filter (width, height) = Raise AssertionError).
  { intros N. unfold get_z_filter.
    destruct (Z.eqb_spec (width mod 16) 0) as [Mw | Mw];
      destruct (Z.eqb_spec (height mod 16) 0) as [Mh | Mh];
      cbn [andb negb]; try reflexivity.
    elim N. now split. }
  assert (Passed : (width mod 16 = 0)%Z /\ (height mod 16 = 0)%Z ->
                   get_z_filter (width, height) <> Raise AssertionError).
  { intros [Mw Mh]. unfold get_z_filter. rewrite Mw, Mh. cbn [Z.eqb andb negb].
    unfold of_Z. rewrite !py_div_fin by lra. cbn [bind].
    destruct (Np.zeros (height / 16) (width / 16 + 1)) as [z |] eqn:Ez.
    - cbn [bind]. destruct (for_each _ _ _) as [zs |] eqn:El.
      + discriminate.
      + cbn [bind]. intros E. injection E as ->.
        unfold Np.zeros in Ez.
        destruct ((height / 16 <? 0)%Z || (width / 16 + 1 <? 0)%Z);
          [discriminate |].
        injection Ez as <-.
        assert (NoAssert : forall (l : list nat) body
                                  (acc : Np.ndarray num * Np.ndarray num),
                   (forall a v, body a v <> Raise AssertionError) ->
                   for_each l body acc <> Raise AssertionError).
        { induction l as [| v l IH]; intros body acc Hb; cbn [for_each].
          - discriminate.
          - destruct (body acc v) as [acc' |] eqn:Eb; cbn [bind].
            + now apply IH.
            + intros E. apply (Hb acc v). now rewrite Eb. }
        revert El. apply NoAssert. intros acc i. apply NoAssert.
        intros acc' j. unfold fill_cell, Np.setitem.
        destruct (Np.in_shape (fst acc') j i); [| discriminate].
        cbn [bind]. destruct (Np.in_shape (snd acc') j i); discriminate.
    - cbn [bind]. unfold Np.zeros in Ez.
      destruct ((height / 16 <? 0)%Z || (width / 16 + 1 <? 0)%Z);
        [| discriminate].
      injection Ez as <-. discriminate. }
  assert (Dec : ((width mod 16 = 0)%Z /\ (height mod 16 = 0)%Z)
                \/ ~ ((width mod 16 = 0)%Z /\ (height mod 16 = 0)%Z)).
  { destruct (Z.eq_dec (width mod 16) 0); destruct (Z.eq_dec (height mod 16) 0);
      tauto. }
  split.
  { split; [| exact Bad]. intros E M. now apply (Passed M). }
  intros Hw Hh.
  assert (Good : (width mod 16 = 0)%Z /\ (height mod 16 = 0)%Z ->
                 exists zfx zfy,
                   get_z_filter (width, height) = Ok (zfx, zfy) /\
                   Np.nrows zfx = Z.to_nat (height / 16) /\
                   Np.ncols zfx = Z.to_nat (width / 16 + 1) /\
                   Np.nrows zfy = Z.to_nat (height / 16) /\
                   Np.ncols zfy = Z.to_nat (width / 16 + 1)).
  { intros [Mw Mh].
    destruct (get_z_filter_ok width height Hw Hh Mw Mh)
      as (zx & zy & E & (Rx & Cx & _) & (Ry & Cy & _)).
    assert (Hcols : Z.to_nat (width / 16 + 1) = S (Z.to_nat (width / 16))).
    { assert (0 <= width / 16)%Z by (apply Z.div_pos; lia).
      replace (width / 16 + 1)%Z with (Z.succ (width / 16)) by lia.
      now rewrite Z2Nat.inj_succ by lia. }
    eexists; eexists. split; [exact E |].
    cbn [Np.idiv Np.map_items Np.nrows Np.ncols]. rewrite Hcols.
    repeat split; assumption. }
  repeat split.
  - intros [e E] M. destruct (Good M) as (zx & zy & E' & _). congruence.
  - intros N. exists AssertionError. now apply Bad.
  - intros e E. destruct Dec as [M | N].
    + destruct (Good M) as (zx & zy & E' & _). congruence.
    + rewrite (Bad N) in E. congruence.
  - exact Good.
Qed.

Lemma get_z_filter_fails_iff_not_multiple_of_16_witness :
  (exists e, get_z_filter (320, 250)%Z = Raise e) /\
  (exists zfx zfy,
      get_z_filter (320, 240)%Z = Ok (zfx, zfy) /\
      Np.nrows zfx = 15%nat /\ Np.ncols zfx = 21%nat /\
      Np.nrows zfy = 15%nat /\ Np.ncols zfy = 21%nat).
Proof.
  split.
  - destruct (get_z_filter_fails_iff_not_multiple_of_16 320 250)
      as (_ & H).
    destruct H as ((_ & F) & _); [lia | lia |].
    apply F. intros [_ M]. discriminate M.
  - destruct (get_z_filter_fails_iff_not_multiple_of_16 320 240)
      as (_ & H).
    destruct H as (_ & _ & G); [lia | lia |].
    apply G. split; reflexivity.
Defined.

(** C7.  After [get_z_filter] and [get_yaw_filter] on a valid resolution,
    the rotation filter is the divergence filter turned by 90 degrees:
    [yaw_filter_x] is [z_filter_y], and [yaw_filter_y] has the shape of
    [z_filter_x] and holds its negated weights, cell by cell. *)
Theorem yaw_filter_is_rotated_z_filter (width height : Z) :
  (0 <= width)%Z -> (0 <= height)%Z ->
  (width mod 16 = 0)%Z -> (height mod 16 = 0)%Z ->
  exists zfx zfy,
    get_z_filter (width, height) = Ok (zfx, zfy) /\
    let yaw := get_yaw_filter (width, height) (zfx, zfy) in
    fst yaw = zfy /\
    Np.nrows (snd yaw) = Np.nrows zfx /\
    Np.ncols (snd yaw) = Np.ncols zfx /\
    forall j i, Np.item (fst yaw) j i = Np.item zfy j i /\
                Np.item (snd yaw) j i = fopp (Np.item zfx j i).
Proof.
  intros Hw Hh Mw Mh.
  destruct (get_z_filter_ok width height Hw Hh Mw Mh) as (zx & zy & E & _).
  eexists; eexists; split; [exact E |].
  cbn [get_yaw_filter fst snd Np.scale Np.map_items Np.nrows Np.ncols Np.item].
  repeat split; trivial. apply fmul_minus_one.
Qed.

Lemma yaw_filter_is_rotated_z_filter_witness :
  exists zfx zfy,
    get_z_filter (320, 240)%Z = Ok (zfx, zfy) /\
    let yaw := get_yaw_filter (320, 240)%Z (zfx, zfy) in
    fst yaw = zfy /\
    Np.nrows (snd yaw) = Np.nrows zfx /\
    Np.ncols (snd yaw) = Np.ncols zfx /\
    forall j i, Np.item (fst yaw) j i = Np.item zfy j i /\
                Np.item (snd yaw) j i = fopp (Np.item zfx j i).
Proof.
  apply (yaw_filter_is_rotated_z_filter 320 240); [lia | lia | reflexivity | reflexivity].
Defined.

(** The grids of a 16 by 16 source: one motion-vector column and one row,
    all offsets zero, so that every weight is [0/0]. *)
Lemma z_filter_16_16 :
  exists zfx zfy,
    get_z_filter (16, 16)%Z = Ok (zfx, zfy) /\
    Np.nrows zfx = 1%nat /\ Np.ncols zfx = 2%nat /\
    Np.nrows zfy = 1%nat /\ Np.ncols zfy = 2%nat /\
    (forall i, (i < 2)%nat -> Np.item zfx 0 i = NaN) /\
    (forall i, (i < 2)%nat -> Np.item zfy 0 i = NaN).
Proof.
  destruct (get_z_filter_ok 16 16) as (zx & zy & E & Rx & Ry);
    try lia; try reflexivity.
  change (Z.to_nat (16 / 16)) with 1%nat in Rx, Ry.
  assert (Fx : finite_items zx (fun _ _ => 0)).
  { intros j i _ _. destruct Rx as (_ & _ & H). rewrite H. f_equal.
    unfold offset_x. destruct i as [| i]; destruct j as [| j]; simpl; lra. }
  assert (Fy : finite_items zy (fun _ _ => 0)).
  { intros j i _ _. destruct Ry as (_ & _ & H). rewrite H. f_equal.
    unfold offset_y. destruct i as [| i]; destruct j as [| j]; simpl; lra. }
  destruct Rx as (Rx & Cx & _). destruct Ry as (Ry & Cy & _).
  exists (Np.idiv zx (Np.norm zx)), (Np.idiv zy (Np.norm zy)).
  split; [exact E |].
  cbn [Np.idiv Np.map_items Np.nrows Np.ncols].
  repeat split; trivial; intros i Hi.
  - apply (idiv_norm_zero zx Fx); lia.
  - apply (idiv_norm_zero zy Fy); lia.
Qed.





(** C5, as stated, fails on a 16 by 16 source: the grids have the claimed
    shape, one row of one weight and one padding cell, but the padding
    cell holds [NaN]. *)
Lemma padding_column_fails_at_16_16 :
  exists zfx zfy,
    get_z_filter (16, 16)%Z = Ok (zfx, zfy) /\
    Np.nrows zfx = Z.to_nat (16 / 16) /\
    Np.ncols zfx = Z.to_nat (16 / 16 + 1) /\
    Np.item zfx 0 (Z.to_nat (16 / 16)) = NaN /\
    Np.item zfy 0 (Z.to_nat (16 / 16)) = NaN /\
    Np.item zfx 0 (Z.to_nat (16 / 16)) <> Fin 0.
Proof.
  destruct z_filter_16_16 as (zfx & zfy & E & Rx & Cx & Ry & Cy & Ix & Iy).
  exists zfx, zfy. split; [exact E |].
  change (Z.to_nat (16 / 16 + 1)) with 2%nat.
  change (Z.to_nat (16 / 16)) with 1%nat.
  rewrite (Ix 1%nat), (Iy 1%nat) by lia.
  repeat split; trivial; discriminate.
Qed.

(** C5, amended.  For source dimensions that are positive multiples of 16,
    both weight grids have [height/16] rows and [width/16 + 1] columns; the
    padding column of the X grid is zero when the width is at least 32,
    the one of the Y grid when the height is at least 32. *)
Theorem z_filter_shape_and_padding (width height : Z) :
  (width mod 16 = 0)%Z -> (height mod 16 = 0)%Z ->
  (16 <= width)%Z -> (16 <= height)%Z ->
  exists zfx zfy,
    get_z_filter (width, height) = Ok (zfx, zfy) /\
    Np.nrows zfx = Z.to_nat (height / 16) /\
    Np.ncols zfx = Z.to_nat (width / 16 + 1) /\
    Np.nrows zfy = Z.to_nat (height / 16) /\
    Np.ncols zfy = Z.to_nat (width / 16 + 1) /\
    ((32 <= width)%Z ->
     forall j, (j < Z.to_nat (height / 16))%nat ->
               Np.item zfx j (Z.to_nat (width / 16)) = Fin 0) /\
    ((32 <= height)%Z ->
     forall j, (j < Z.to_nat (height / 16))%nat ->
               Np.item zfy j (Z.to_nat (width / 16)) = Fin 0).
Proof.
  intros Mw Mh Hw Hh.
  destruct (get_z_filter_ok width height) as (zx & zy & E & Rx & Ry);
    try lia; trivial.
  pose proof (grid_cols_pos width Mw Hw) as Hc1.
  pose proof (grid_cols_pos height Mh Hh) as Hr1.
  assert (Hcols : Z.to_nat (width / 16 + 1) = S (Z.to_nat (width / 16))).
  { assert (0 <= width / 16)%Z by (apply Z.div_pos; lia).
    replace (width / 16 + 1)%Z with (Z.succ (width / 16)) by lia.
    now rewrite Z2Nat.inj_succ by lia. }
  exists (Np.idiv zx (Np.norm zx)), (Np.idiv zy (Np.norm zy)).
  split; [exact E |].
  cbn [Np.idiv Np.map_items Np.nrows Np.ncols Np.item]. rewrite Hcols.
  pose proof (raw_grid_finite _ _ _ _ Rx) as Fx.
  pose proof (raw_grid_finite _ _ _ _ Ry) as Fy.
  destruct Rx as (Rx & Cx & Ix). destruct Ry as (Ry & Cy & Iy).
  repeat split; trivial; intros H32 j Hj.
  - rewrite (norm_finite zx _ Fx), Ix, Rx, Cx.
    pose proof (offset_x_sumsq_pos _ _ (grid_cols width Mw H32) Hr1) as P.
    apply sqrt_lt_R0 in P.
    rewrite np_div_fin by (apply Rgt_not_eq; exact P). f_equal.
    unfold offset_x at 1. rewrite Nat.ltb_irrefl. cbn [andb].
    unfold Rdiv. apply Rmult_0_l.
  - rewrite (norm_finite zy _ Fy), Iy, Ry, Cy.
    pose proof (offset_y_sumsq_pos _ _ Hc1 (grid_cols height Mh H32)) as P.
    apply sqrt_lt_R0 in P.
    rewrite np_div_fin by (apply Rgt_not_eq; exact P). f_equal.
    unfold offset_y at 1. rewrite Nat.ltb_irrefl. cbn [andb].
    unfold Rdiv. apply Rmult_0_l.
Qed.

Lemma z_filter_shape_and_padding_witness :
  exists zfx zfy,
    get_z_filter (320, 240)%Z = Ok (zfx, zfy) /\
    Np.nrows zfx = 15%nat /\
    Np.ncols zfx = 21%nat /\
    Np.nrows zfy = 15%nat /\
    Np.ncols zfy = 21%nat /\
    ((32 <= 320)%Z ->
     forall j, (j < 15)%nat -> Np.item zfx j 20 = Fin 0) /\
    ((32 <= 240)%Z ->
     forall j, (j < 15)%nat -> Np.item zfy j 20 = Fin 0).
Proof.
  apply (z_filter_shape_and_padding 320 240); [reflexivity | reflexivity | lia | lia].
Defined.

End FilterBankClaims.

(** ** Dot products of a uniform frame with the filters *)

Section UniformFlow.

Open Scope R_scope.

Lemma bindex_in (n k : nat) : (k < n)%nat -> Np.bindex n k = k.
Proof.
  intros H. unfold Np.bindex.
  destruct (Nat.eqb_spec n 1) as [-> | _]; [lia | reflexivity].
Qed.

Lemma broadcast_same (n : nat) : Np.broadcast n n = Some n.
Proof. unfold Np.broadcast. now rewrite Nat.eqb_refl. Qed.

Lemma isum_upto_const (n : nat) (f : nat -> Z) (k : Z) :
  (forall i, (i < n)%nat -> f i = k) ->
  Np.isum_upto n f = (Z.of_nat n * k)%Z.
Proof.
  induction n as [| n IH]; intros H.
  - reflexivity.
  - cbn [Np.isum_upto]. rewrite IH by (intros; apply H; lia).
    rewrite (H n) by lia. lia.
Qed.

Lemma isum_uniform (rows cols : nat) (x : Np.ndarray Z) (k : Z) :
  uniform rows cols x k -> Np.isum x = (Z.of_nat (rows * cols) * k)%Z.
Proof.
  intros (R & C & H). unfold Np.isum. rewrite R, C.
  rewrite (isum_upto_const rows _ (Z.of_nat cols * k)%Z).
  - lia.
  - intros j Hj. apply isum_upto_const. intros i Hi. now apply H.
Qed.

(** A uniform field against a balanced grid: the element-wise product is
    defined and its sum vanishes. *)
Lemma dot_uniform_balanced (rows cols : nat) (x : Np.ndarray Z) (k : Z)
      (w : Np.ndarray num) :
  uniform rows cols x k -> balanced rows cols w ->
  exists p, Np.multiply x w = Ok p /\ Np.sum p = Fin 0.
Proof.
  intros (Rx & Cx & Hx) (g & Rw & Cw & Fw & Zw).
  unfold Np.multiply. rewrite Rx, Cx, Rw, Cw, !broadcast_same.
  eexists; split; [reflexivity |].
  rewrite (sum_finite _ (fun j i => IZR k * g j i)).
  - cbn [Np.nrows Np.ncols]. rewrite rsum2_scal, Zw. f_equal. ring.
  - intros j i Hj Hi. cbn [Np.nrows Np.ncols Np.item] in *.
    rewrite !bindex_in by assumption.
    rewrite Hx by assumption.
    rewrite (Fw j i) by (rewrite ?Rw, ?Cw; assumption). reflexivity.
Qed.

Lemma balanced_idiv (offset : nat -> nat -> R) (cols rows : nat)
      (z : Np.ndarray num) :
  raw_grid offset cols rows z ->
  rsum2 rows (S cols) offset = 0 ->
  0 < rsum2 rows (S cols) (fun j i => offset j i * offset j i) ->
  balanced rows (S cols) (Np.idiv z (Np.norm z)).
Proof.
  intros Rz Zs Ps. pose proof (raw_grid_finite _ _ _ _ Rz) as Fz.
  destruct Rz as (Rr & Rc & _).
  rewrite (norm_finite z _ Fz), Rr, Rc.
  set (n := sqrt _). assert (Hn : 0 < n) by now apply sqrt_lt_R0.
  exists (fun j i => offset j i / n).
  cbn [Np.idiv Np.map_items Np.nrows Np.ncols]. repeat split; trivial.
  - apply idiv_finite; [exact Fz | lra].
  - rewrite (rsum2_ext _ _ _ (fun j i => / n * offset j i)).
    + rewrite rsum2_scal, Zs. ring.
    + intros. unfold Rdiv. ring.
Qed.

Lemma balanced_scale_minus_one (rows cols : nat) (w : Np.ndarray num) :
  balanced rows cols w -> balanced rows cols (Np.scale (of_Z (-1)) w).
Proof.
  intros (g & Rw & Cw & Fw & Zw). exists (fun j i => -1 * g j i).
  cbn [Np.scale Np.map_items Np.nrows Np.ncols]. repeat split; trivial.
  - intros j i Hj Hi.
    cbn [Np.scale Np.map_items Np.nrows Np.ncols Np.item] in *.
    rewrite (Fw j i Hj Hi). reflexivity.
  - rewrite rsum2_scal, Zw. ring.
Qed.

(** On a resolution of at least 32 by 32 the four filters that [setup]
    stores are balanced. *)
Lemma fresh_filters_balanced (cols rows : nat) (zx zy : Np.ndarray num)
      (mf fs now : num) :
  (2 <= cols)%nat -> (2 <= rows)%nat ->
  raw_grid (offset_x cols rows) cols rows zx ->
  raw_grid (offset_y cols rows) cols rows zy ->
  let st := fresh zx zy mf fs now in
  balanced rows (S cols) (z_filter_x st) /\
  balanced rows (S cols) (z_filter_y st) /\
  balanced rows (S cols) (yaw_filter_x st) /\
  balanced rows (S cols) (yaw_filter_y st).
Proof.
  intros Hc Hr Rx Ry. cbn [fresh z_filter_x z_filter_y yaw_filter_x yaw_filter_y].
  assert (Bx : balanced rows (S cols) (Np.idiv zx (Np.norm zx))).
  { apply (balanced_idiv _ _ _ _ Rx).
    - apply rsum2_rows_zero. intros j _. apply offset_x_row_sum.
    - apply offset_x_sumsq_pos; lia. }
  assert (By : balanced rows (S cols) (Np.idiv zy (Np.norm zy))).
  { apply (balanced_idiv _ _ _ _ Ry).
    - apply offset_y_sum.
    - apply offset_y_sumsq_pos; lia. }
  repeat split; trivial. now apply balanced_scale_minus_one.
Qed.

End UniformFlow.

(** ** The callbacks on a configured object *)

Section Callbacks.

Open Scope R_scope.

Variable euler_from_quaternion : list num -> num * num * num.

(** While [prev_imu_time] is zero, [imu_callback] takes its second branch:
    it stores the baseline and nothing else. *)
Lemma imu_callback_idle (st : AnalyzeFlow) (msg : Imu) :
  prev_imu_time st = Fin 0 ->
  imu_callback euler_from_quaternion st msg
  = Ok (store_baseline st
          (fst (fst (angles_of euler_from_quaternion msg)))
          (snd (fst (angles_of euler_from_quaternion msg)))
          (time (header msg))).
Proof.
  intros H. unfold imu_callback, angles_of.
  destruct (euler_from_quaternion _) as [[angx angy] angz].
  rewrite H. change (Fin 0) with (of_Z 0). now rewrite py_ne_zero_zero.
Qed.

Lemma imu_callback_keeps_idle (st0 st st' : AnalyzeFlow) (msg : Imu) :
  idle st0 st -> imu_callback euler_from_quaternion st msg = Ok st' ->
  idle st0 st'.
Proof.
  intros I E. pose proof I as (A & B & C & D & F & G & Vx & Vy & P & T).
  rewrite (imu_callback_idle st msg P) in E. injection E as <-.
  exact I.
Qed.

Lemma analyse_keeps_idle (st0 st st' : AnalyzeFlow) (a : Frame.t) (now : R)
      (rostime : Time) :
  idle st0 st -> analyse st a (Fin now) rostime = Ok st' -> idle st0 st'.
Proof.
  intros (A & B & C & D & F & G & Vx & Vy & P & T) E. unfold analyse in E.
  destruct (Np.multiply (Frame.x a) (z_filter_x st)); [| discriminate].
  destruct (Np.multiply (Frame.y a) (z_filter_y st)); [| discriminate].
  destruct (Np.multiply (Frame.x a) (yaw_filter_x st)); [| discriminate].
  destruct (Np.multiply (Frame.y a) (yaw_filter_y st)); [| discriminate].
  cbn [bind] in E. injection E as <-.
  unfold idle. cbn. repeat split; trivial. now exists now.
Qed.

Lemma run_keeps_idle (st0 : AnalyzeFlow) (events : list event) :
  forall st st', idle st0 st ->
                 run euler_from_quaternion st events = Ok st' -> idle st0 st'.
Proof.
  induction events as [| e events IH]; intros st st' I E.
  - injection E as <-. exact I.
  - unfold run in E. cbn [for_each] in E.
    destruct (deliver euler_from_quaternion st e) as [st1 |] eqn:D;
      [| discriminate].
    cbn [bind] in E. apply (IH st1 st'); trivial.
    destruct e as [msg | a now rostime]; cbn [deliver] in D.
    + now apply (imu_callback_keeps_idle st0 st st1 msg).
    + now apply (analyse_keeps_idle st0 st st1 a now rostime).
Qed.

Lemma fresh_idle (zx zy : Np.ndarray num) (mf fs : num) (t0 : R) :
  idle (fresh zx zy mf fs (Fin t0)) (fresh zx zy mf fs (Fin t0)).
Proof. unfold idle. cbn. repeat split; trivial. now exists t0. Qed.

End Callbacks.

(** ** [analyse] on a uniform frame *)

Section Analyse.

Open Scope R_scope.

(** With balanced filters and held rates at zero, a frame whose cells all
    hold [dx = k] and [dy = m] gives the two lateral components alone. *)
Lemma analyse_uniform (st : AnalyzeFlow) (a : Frame.t) (rows cols : nat)
      (k m : Z) (fc t0 t1 : R) (rostime : Time) :
  balanced rows cols (z_filter_x st) ->
  balanced rows cols (z_filter_y st) ->
  balanced rows cols (yaw_filter_x st) ->
  balanced rows cols (yaw_filter_y st) ->
  ang_vx st = Fin 0 -> ang_vy st = Fin 0 ->
  prev_time st = Fin t0 -> flow_coeff st = Fin fc ->
  ang_coefficient st = Fin 1 ->
  uniform rows cols (Frame.x a) k -> uniform rows cols (Frame.y a) m ->
  let xm := Fin (- (IZR k * INR (rows * cols) * fc)) in
  let ym := Fin (IZR m * INR (rows * cols) * fc) in
  analyse st a (Fin t1) rostime
  = Ok (store_estimate st (Fin t1) xm ym (Fin 0) (Fin 0)
          (mk_TwistStamped
             (mk_Header rostime (frame_id (ts_header (velocity st))))
             (mk_Twist
                (Vector3.mk xm ym (Fin 0))
                (Vector3.mk (Vector3.x (angular (ts_twist (velocity st))))
                            (Vector3.y (angular (ts_twist (velocity st))))
                            (Fin 0))))).
Proof.
  intros Bzx Bzy Byx Byy Vx Vy Pt Fc Ac Ux Uy xm ym. unfold analyse.
  destruct (dot_uniform_balanced _ _ _ _ _ Ux Bzx) as (p1 & E1 & S1).
  destruct (dot_uniform_balanced _ _ _ _ _ Uy Bzy) as (p2 & E2 & S2).
  destruct (dot_uniform_balanced _ _ _ _ _ Ux Byx) as (p3 & E3 & S3).
  destruct (dot_uniform_balanced _ _ _ _ _ Uy Byy) as (p4 & E4 & S4).
  rewrite E1, E2, E3, E4. cbn [bind]. rewrite S1, S2, S3, S4.
  rewrite (isum_uniform _ _ _ _ Ux), (isum_uniform _ _ _ _ Uy).
  rewrite Vx, Vy, Pt, Fc, Ac.
  assert (Z0 : fadd (Fin 0) (Fin 0) = Fin 0)
    by (cbn [fadd]; f_equal; ring).
  assert (X : fadd (fsub (of_Z 0)
                      (fmul (of_Z (Z.of_nat (rows * cols) * k)) (Fin fc)))
                   (fmul (farctan (fmul (Fin 0) (fsub (Fin t1) (Fin t0))))
                      (Fin 1)) = xm).
  { unfold xm, of_Z. cbn [fsub fopp fadd fmul farctan]. f_equal.
    rewrite Rmult_0_l, atan_0, mult_IZR, <- INR_IZR_INZ. ring. }
  assert (Y : fadd (fmul (of_Z (Z.of_nat (rows * cols) * m)) (Fin fc))
                   (fmul (farctan (fmul (Fin 0) (fsub (Fin t1) (Fin t0))))
                      (Fin 1)) = ym).
  { unfold ym, of_Z. cbn [fsub fopp fadd fmul farctan]. f_equal.
    rewrite Rmult_0_l, atan_0, mult_IZR, <- INR_IZR_INZ. ring. }
  rewrite X, Y, Z0. reflexivity.
Qed.

End Analyse.

(** ** The estimator after [setup] *)

Section Estimator.

Open Scope R_scope.

Lemma grid_cols_succ (width : Z) :
  (0 <= width)%Z -> Z.to_nat (width / 16 + 1) = S (Z.to_nat (width / 16)).
Proof.
  intros H. assert (0 <= width / 16)%Z by (apply Z.div_pos; lia).
  replace (width / 16 + 1)%Z with (Z.succ (width / 16)) by lia.
  now rewrite Z2Nat.inj_succ by lia.
Qed.

(** [setup] on a resolution of at least 32 by 32: the object it leaves. *)
Lemma setup_ready (width height : Z) (p : option (list TwistStamped))
      (fs t0 : R) :
  (width mod 16 = 0)%Z -> (height mod 16 = 0)%Z ->
  (32 <= width)%Z -> (32 <= height)%Z ->
  exists st0,
    setup (width, height) p (Fin fs) (Fin t0) = Ok st0 /\
    idle st0 st0 /\
    balanced (Z.to_nat (height / 16)) (Z.to_nat (width / 16 + 1)) (z_filter_x st0) /\
    balanced (Z.to_nat (height / 16)) (Z.to_nat (width / 16 + 1)) (z_filter_y st0) /\
    balanced (Z.to_nat (height / 16)) (Z.to_nat (width / 16 + 1)) (yaw_filter_x st0) /\
    balanced (Z.to_nat (height / 16)) (Z.to_nat (width / 16 + 1)) (yaw_filter_y st0) /\
    flow_coeff st0 = Fin (fs / (IZR width / 16 * IZR height / 16 * 128)) /\
    ang_coefficient st0 = Fin 1 /\
    velocity st0 = TwistStamped0 /\
    pub st0 = [].
Proof.
  intros Mw Mh Hw Hh.
  destruct (setup_ok width height p (Fin fs) (Fin t0))
    as (zx & zy & Rx & Ry & E); try lia; trivial.
  eexists. split; [exact E |]. split; [apply fresh_idle |].
  rewrite grid_cols_succ by lia.
  destruct (fresh_filters_balanced _ _ zx zy
              (Fin (IZR width / 16 * IZR height / 16 * 128)) (Fin fs) (Fin t0)
              (grid_cols width Mw Hw) (grid_cols height Mh Hh) Rx Ry)
    as (B1 & B2 & B3 & B4).
  repeat split; trivial.
  cbn [fresh flow_coeff]. apply np_div_fin.
  apply IZR_le in Hw, Hh. apply Rgt_not_eq.
  apply Rmult_gt_0_compat; [| lra].
  apply Rdiv_lt_0_compat; [| lra].
  apply Rmult_lt_0_compat; [| lra].
  apply Rdiv_lt_0_compat; lra.
Qed.

(** C1 (the code departs from it).  On the default resolution, whatever
    the first two attitude samples are, and so also when the second comes
    0.1 s after the first with angles 0.1 rad larger, both callbacks
    return, the held rates are zero after the first and still zero (not
    1.0) after the second: [prev_imu_time] is never assigned, so
    [imu_callback] only overwrites the baseline. *)
Theorem imu_second_sample_leaves_rates_at_zero
        (euler_from_quaternion : list num -> num * num * num)
        (p : option (list TwistStamped)) (t0 : R) (m1 m2 : Imu) :
  exists st0 st1 st2,
    setup (320, 240)%Z p (Fin (33 / 2)) (Fin t0) = Ok st0 /\
    imu_callback euler_from_quaternion st0 m1 = Ok st1 /\
    imu_callback euler_from_quaternion st1 m2 = Ok st2 /\
    ang_vx st1 = Fin 0 /\ ang_vy st1 = Fin 0 /\
    ang_vx st2 = Fin 0 /\ ang_vy st2 = Fin 0 /\
    ang_vx st2 <> Fin 1 /\ ang_vy st2 <> Fin 1 /\
    prev_imu_time st2 = Fin 0 /\
    imu_time st2 = Some (time (header m2)) /\
    prev_angx st2 = fst (fst (angles_of euler_from_quaternion m2)) /\
    prev_angy st2 = snd (fst (angles_of euler_from_quaternion m2)).
Proof.
  destruct (setup_ok 320 240 p (Fin (33 / 2)) (Fin t0))
    as (zx & zy & _ & _ & E); try lia; try reflexivity.
  eexists; eexists; eexists. split; [exact E |].
  rewrite imu_callback_idle by reflexivity. split; [reflexivity |].
  rewrite imu_callback_idle by reflexivity. split; [reflexivity |].
  cbn [store_baseline ang_vx ang_vy prev_imu_time imu_time prev_angx prev_angy
       fresh].
  assert (N : Fin 0 <> Fin 1) by (intros H; injection H; lra).
  repeat split; trivial.
Qed.

(** C2.  After [setup] and any inputs handled so far, two consecutive
    attitude samples with the same timestamp are both handled without an
    exception, hence without a division by zero, and the second leaves the
    held rates as they were, finite.  (No division is reached at all:
    [prev_imu_time] stays zero, see C1.) *)
Theorem duplicate_timestamp_retains_rates
        (euler_from_quaternion : list num -> num * num * num)
        (width height : Z) (p : option (list TwistStamped)) (fs : num)
        (t0 : R) :
  (width mod 16 = 0)%Z -> (height mod 16 = 0)%Z ->
  (0 < width)%Z -> (0 < height)%Z ->
  exists st0,
    setup (width, height) p fs (Fin t0) = Ok st0 /\
    forall events st m1 m2,
      run euler_from_quaternion st0 events = Ok st ->
      time (header m1) = time (header m2) ->
      exists st1 st2,
        imu_callback euler_from_quaternion st m1 = Ok st1 /\
        imu_callback euler_from_quaternion st1 m2 = Ok st2 /\
        ang_vx st2 = ang_vx st1 /\ ang_vy st2 = ang_vy st1 /\
        exists rx ry, ang_vx st2 = Fin rx /\ ang_vy st2 = Fin ry.
Proof.
  intros Mw Mh Hw Hh.
  destruct (setup_ok width height p fs (Fin t0))
    as (zx & zy & _ & _ & E); trivial.
  eexists. split; [exact E |]. intros events st m1 m2 Run _.
  pose proof (run_keeps_idle euler_from_quaternion _ events _ _
                (fresh_idle zx zy _ fs t0) Run)
    as (_ & _ & _ & _ & _ & _ & Vx & Vy & P & _).
  eexists; eexists.
  rewrite (imu_callback_idle _ st m1 P). split; [reflexivity |].
  rewrite imu_callback_idle by exact P. split; [reflexivity |].
  cbn [store_baseline ang_vx ang_vy]. rewrite Vx, Vy.
  repeat split. now exists 0, 0.
Qed.

Lemma duplicate_timestamp_retains_rates_witness :
  let euler := fun _ : list num => (Fin 0, Fin 0, Fin 0) in
  let m := mk_Imu (mk_ImuHeader (Fin 1)) Quaternion.zero in
  exists st0 st1 st2,
    setup (320, 240)%Z None (Fin (33 / 2)) (Fin 0) = Ok st0 /\
    imu_callback euler st0 m = Ok st1 /\
    imu_callback euler st1 m = Ok st2 /\
    ang_vx st2 = ang_vx st1 /\ ang_vy st2 = ang_vy st1.
Proof.
  intros euler m.
  destruct (duplicate_timestamp_retains_rates euler 320 240 None
              (Fin (33 / 2)) 0 eq_refl eq_refl eq_refl eq_refl)
    as (st0 & E & H).
  destruct (H [] st0 m m eq_refl eq_refl) as (st1 & st2 & E1 & E2 & Vx & Vy & _).
  exists st0, st1, st2. repeat split; assumption.
Defined.



(** C6.  On the first camera tick after [setup] on a resolution of at
    least 32 by 32, with no attitude sample handled, a frame whose cells
    all hold [dx = 0] and [dy = 0] gives a published estimate whose twist
    is zero in every component, for any reading of the clock. *)
Theorem first_tick_zero_frame_gives_zero_estimate
        (width height : Z) (p : option (list TwistStamped)) (fs t0 t1 : R)
        (a : Frame.t) (rostime : Time) :
  (width mod 16 = 0)%Z -> (height mod 16 = 0)%Z ->
  (32 <= width)%Z -> (32 <= height)%Z ->
  uniform (Z.to_nat (height / 16)) (Z.to_nat (width / 16 + 1)) (Frame.x a) 0 ->
  uniform (Z.to_nat (height / 16)) (Z.to_nat (width / 16 + 1)) (Frame.y a) 0 ->
  exists st0 st1,
    setup (width, height) p (Fin fs) (Fin t0) = Ok st0 /\
    analyse st0 a (Fin t1) rostime = Ok st1 /\
    x_motion st1 = Fin 0 /\ y_motion st1 = Fin 0 /\
    z_motion st1 = Fin 0 /\ yaw_motion st1 = Fin 0 /\
    ts_twist (velocity st1) = mk_Twist Vector3.zero Vector3.zero /\
    stamp (ts_header (velocity st1)) = rostime /\
    pub st1 = [velocity st1].
Proof.
  intros Mw Mh Hw Hh Ux Uy.
  destruct (setup_ready width height p fs t0 Mw Mh Hw Hh)
    as (st0 & E & I0 & B1 & B2 & B3 & B4 & Fc & Ac & V0 & P0).
  destruct I0 as (_ & _ & _ & _ & _ & _ & Vx & Vy & _ & (t & Pt)).
  exists st0. eexists. split; [exact E |]. split.
  - apply (analyse_uniform st0 a (Z.to_nat (height / 16))
             (Z.to_nat (width / 16 + 1)) 0 0
             (fs / (IZR width / 16 * IZR height / 16 * 128)) t t1 rostime);
      assumption.
  - cbn [store_estimate x_motion y_motion z_motion yaw_motion velocity pub
         ts_twist ts_header stamp].
    rewrite V0, P0. cbn [TwistStamped0 ts_twist angular Vector3.x Vector3.y
                         Vector3.zero app].
    assert (X : - (0 * INR (Z.to_nat (height / 16) * Z.to_nat (width / 16 + 1))
                   * (fs / (IZR width / 16 * IZR height / 16 * 128))) = 0)
      by ring.
    assert (Y : 0 * INR (Z.to_nat (height / 16) * Z.to_nat (width / 16 + 1))
                * (fs / (IZR width / 16 * IZR height / 16 * 128)) = 0)
      by ring.
    rewrite X, Y. repeat split.
Qed.

Lemma first_tick_zero_frame_gives_zero_estimate_witness :
  let a := Frame.mk (Np.full 15 21 0%Z) (Np.full 15 21 0%Z) (Np.full 15 21 0%Z) in
  exists st0 st1,
    setup (320, 240)%Z None (Fin (33 / 2)) (Fin 0) = Ok st0 /\
    analyse st0 a (Fin 0) Time0 = Ok st1 /\
    ts_twist (velocity st1) = mk_Twist Vector3.zero Vector3.zero.
Proof.
  intros a.
  destruct (first_tick_zero_frame_gives_zero_estimate
              320 240 None (33 / 2) 0 0 a Time0
              eq_refl eq_refl ltac:(lia) ltac:(lia))
    as (st0 & st1 & E & E1 & _ & _ & _ & _ & T & _).
  - split; [reflexivity | split; [reflexivity | intros; reflexivity]].
  - split; [reflexivity | split; [reflexivity | intros; reflexivity]].
  - exists st0, st1. repeat split; assumption.
Defined.

End Estimator.

(** ** The mocap axis remap *)

Section MocapClaims.

Lemma twist_callback_keeps_flag (self self' : Mocap.MocapStateEstimator)
      (msg : TwistStamped) :
  Mocap.twist_callback self msg = Ok self' ->
  Mocap.received_data self' = Mocap.received_data self.
Proof.
  unfold Mocap.twist_callback. destruct (Mocap.publish _ _); [| discriminate].
  cbn [bind]. intros E. injection E as <-. reflexivity.
Qed.

Lemma accel_callback_keeps_flag (self self' : Mocap.MocapStateEstimator)
      (msg : AccelStamped) :
  Mocap.accel_callback self msg = Ok self' ->
  Mocap.received_data self' = Mocap.received_data self.
Proof.
  unfold Mocap.accel_callback. destruct (Mocap.publish _ _); [| discriminate].
  cbn [bind]. intros E. injection E as <-. reflexivity.
Qed.

(** C9 (the code departs from it).  On a new estimator with its three
    publishers, a first pose sample sets [received_data], but a first
    twist sample and a first acceleration sample are republished and leave
    it [False]: only [pose_callback] assigns the flag. *)
Theorem first_twist_or_accel_sample_leaves_flag_unset
        (rigid_body_name : string) (pm : PoseStamped) (tm : TwistStamped)
        (am : AccelStamped) :
  let mse := Mocap.with_publishers (Mocap.init rigid_body_name) in
  (exists s, Mocap.deliver mse (Mocap.PoseSample pm) = Ok s /\
             Mocap.received_data s = true) /\
  (exists s, Mocap.deliver mse (Mocap.TwistSample tm) = Ok s /\
             Mocap.twistpub s = Some [Mocap.twist_to_pub tm] /\
             Mocap.received_data s = false) /\
  (exists s, Mocap.deliver mse (Mocap.AccelSample am) = Ok s /\
             Mocap.accelpub s = Some [Mocap.accel_to_pub am] /\
             Mocap.received_data s = false).
Proof.
  intros mse. repeat split; eexists; repeat split.
Qed.

(** C10.  With the publishers created, [pose_callback] and
    [twist_callback] republish a message that carries the stamp of their
    input, and [accel_callback] republishes one whose stamp is the
    default-constructed time, whatever the stamp of its input. *)
Theorem accel_callback_does_not_copy_stamp
        (self : Mocap.MocapStateEstimator)
        (sent_p : list PoseWithCovarianceStamped)
        (sent_t : list TwistWithCovarianceStamped)
        (sent_a : list AccelWithCovarianceStamped)
        (pm : PoseStamped) (tm : TwistStamped) (am : AccelStamped) :
  Mocap.posepub self = Some sent_p ->
  Mocap.twistpub self = Some sent_t ->
  Mocap.accelpub self = Some sent_a ->
  (exists s m, Mocap.pose_callback self pm = Ok s /\
               Mocap.posepub s = Some (sent_p ++ [m]) /\
               stamp (pcs_header m) = stamp (ps_header pm)) /\
  (exists s m, Mocap.twist_callback self tm = Ok s /\
               Mocap.twistpub s = Some (sent_t ++ [m]) /\
               stamp (tcs_header m) = stamp (ts_header tm)) /\
  (exists s m, Mocap.accel_callback self am = Ok s /\
               Mocap.accelpub s = Some (sent_a ++ [m]) /\
               stamp (acs_header m) = Time0).
Proof.
  intros Hp Ht Ha.
  unfold Mocap.pose_callback, Mocap.twist_callback, Mocap.accel_callback.
  rewrite Hp, Ht, Ha. cbn [Mocap.publish bind].
  repeat split; eexists; eexists; repeat split.
Qed.

Lemma accel_callback_does_not_copy_stamp_witness :
  let self := Mocap.with_publishers (Mocap.init "drone") in
  let h := mk_Header (mk_Time 7 500) "mocap" in
  let v := Vector3.mk (Fin 1) (Fin 2) (Fin 3) in
  let am := mk_AccelStamped h (mk_Twist v v) in
  exists s m, Mocap.accel_callback self am = Ok s /\
              Mocap.accelpub s = Some ([] ++ [m]) /\
              stamp (acs_header m) = Time0 /\
              stamp (acs_header m) <> stamp (as_header am).
Proof.
  intros self h v am.
  destruct (accel_callback_does_not_copy_stamp self [] [] []
              (mk_PoseStamped h (mk_Pose v Quaternion.zero))
              (mk_TwistStamped h (mk_Twist v v)) am
              eq_refl eq_refl eq_refl)
    as (_ & _ & (s & m & E & P & S)).
  exists s, m. repeat split; trivial.
  rewrite S. discriminate.
Defined.

End MocapClaims.

(** * Further properties of the code *)

(** ** The configured estimator *)

Section Configured.

Open Scope R_scope.

Lemma setup_configured (width height : Z) (p : option (list TwistStamped))
      (fs t0 : R) :
  (width mod 16 = 0)%Z -> (height mod 16 = 0)%Z ->
  (32 <= width)%Z -> (32 <= height)%Z ->
  let cols := Z.to_nat (width / 16) in
  let rows := Z.to_nat (height / 16) in
  exists st0 nx ny,
    setup (width, height) p (Fin fs) (Fin t0) = Ok st0 /\
    0 < nx /\ 0 < ny /\
    nx = sqrt (sumsq (offset_x cols rows) cols rows) /\
    ny = sqrt (sumsq (offset_y cols rows) cols rows) /\
    configured cols rows nx ny
      (fs / (IZR width / 16 * IZR height / 16 * 128)) st0 /\
    idle st0 st0 /\
    velocity st0 = TwistStamped0 /\
    pub st0 = [].
Proof.
  intros Mw Mh Hw Hh cols rows.
  destruct (setup_ok width height p (Fin fs) (Fin t0))
    as (zx & zy & Rx & Ry & E); try lia; trivial.
  fold cols rows in Rx, Ry.
  pose proof (grid_cols width Mw Hw) as Hc. fold cols in Hc.
  pose proof (grid_cols height Mh Hh) as Hr. fold rows in Hr.
  pose proof (raw_grid_finite _ _ _ _ Rx) as Fx.
  pose proof (raw_grid_finite _ _ _ _ Ry) as Fy.
  assert (Px : 0 < sqrt (sumsq (offset_x cols rows) cols rows))
    by (apply sqrt_lt_R0, offset_x_sumsq_pos; lia).
  assert (Py : 0 < sqrt (sumsq (offset_y cols rows) cols rows))
    by (apply sqrt_lt_R0, offset_y_sumsq_pos; lia).
  assert (Nx : Np.norm zx = Fin (sqrt (sumsq (offset_x cols rows) cols rows))).
  { rewrite (norm_finite zx _ Fx). destruct Rx as (-> & -> & _). reflexivity. }
  assert (Ny : Np.norm zy = Fin (sqrt (sumsq (offset_y cols rows) cols rows))).
  { rewrite (norm_finite zy _ Fy). destruct Ry as (-> & -> & _). reflexivity. }
  destruct Rx as (Rx & Cx & Ix). destruct Ry as (Ry & Cy & Iy).
  eexists; eexists; eexists. split; [exact E |].
  split; [exact Px |]. split; [exact Py |].
  split; [reflexivity |]. split; [reflexivity |].
  split; [| split; [apply fresh_idle | split; reflexivity]].
  unfold configured, shaped.
  cbn [fresh z_filter_x z_filter_y yaw_filter_x yaw_filter_y ang_vx ang_vy
       prev_time flow_coeff ang_coefficient
       Np.idiv Np.scale Np.map_items Np.nrows Np.ncols Np.item].
  rewrite Nx, Ny.
  repeat split; trivial.
  - intros j i. rewrite Ix. apply np_div_fin. lra.
  - intros j i. rewrite Iy. apply np_div_fin. lra.
  - intros j i. rewrite Iy. apply np_div_fin. lra.
  - intros j i. rewrite Ix, np_div_fin by lra. unfold of_Z. cbn [fmul].
    f_equal. ring.
  - now exists t0.
  - apply np_div_fin. apply IZR_le in Hw, Hh. apply Rgt_not_eq.
    apply Rmult_gt_0_compat; [| lra].
    apply Rdiv_lt_0_compat; [| lra].
    apply Rmult_lt_0_compat; [| lra].
    apply Rdiv_lt_0_compat; lra.
Qed.

Lemma configured_idle (cols rows : nat) (nx ny fc : R) (st0 st : AnalyzeFlow) :
  configured cols rows nx ny fc st0 -> idle st0 st ->
  configured cols rows nx ny fc st.
Proof.
  intros (S1 & S2 & S3 & S4 & I1 & I2 & I3 & I4 & _ & _ & _ & Fc & Ac)
         (F1 & F2 & F3 & F4 & F5 & F6 & Vx & Vy & _ & T).
  unfold configured. rewrite F1, F2, F3, F4, F5, F6.
  repeat split; trivial; try apply S1; try apply S2; try apply S3;
    try apply S4.
Qed.

End Configured.

(** ** [analyse] on a frame of the filter shape *)

Section AnalyseShaped.

Open Scope R_scope.

Lemma multiply_shaped (rows cols : nat) (x : Np.ndarray Z)
      (w : Np.ndarray num) (g : nat -> nat -> R) :
  shaped rows cols x -> shaped rows cols w ->
  (forall j i, Np.item w j i = Fin (g j i)) ->
  exists p, Np.multiply x w = Ok p /\ Np.sum p = Fin (dot rows cols x g).
Proof.
  intros (Rx & Cx) (Rw & Cw) Hw.
  unfold Np.multiply. rewrite Rx, Cx, Rw, Cw, !broadcast_same.
  eexists; split; [reflexivity |].
  rewrite (sum_finite _ (fun j i => IZR (Np.item x j i) * g j i)).
  - reflexivity.
  - intros j i Hj Hi. cbn [Np.nrows Np.ncols Np.item] in *.
    rewrite !bindex_in by assumption. rewrite Hw. reflexivity.
Qed.

(** The four motions of a frame of the filter shape. *)
Lemma analyse_configured (cols rows : nat) (nx ny fc : R) (st : AnalyzeFlow)
      (a : Frame.t) (t1 : R) (rostime : Time) :
  configured cols rows nx ny fc st ->
  shaped rows (S cols) (Frame.x a) -> shaped rows (S cols) (Frame.y a) ->
  let xm := Fin (- (IZR (Np.isum (Frame.x a)) * fc)) in
  let ym := Fin (IZR (Np.isum (Frame.y a)) * fc) in
  let zm := Fin (dot rows (S cols) (Frame.x a)
                   (fun j i => offset_x cols rows j i / nx)
                 + dot rows (S cols) (Frame.y a)
                     (fun j i => offset_y cols rows j i / ny)) in
  let wm := Fin (dot rows (S cols) (Frame.x a)
                   (fun j i => offset_y cols rows j i / ny)
                 + dot rows (S cols) (Frame.y a)
                     (fun j i => - (offset_x cols rows j i / nx))) in
  analyse st a (Fin t1) rostime
  = Ok (store_estimate st (Fin t1) xm ym zm wm
          (mk_TwistStamped
             (mk_Header rostime (frame_id (ts_header (velocity st))))
             (mk_Twist
                (Vector3.mk xm ym zm)
                (Vector3.mk (Vector3.x (angular (ts_twist (velocity st))))
                            (Vector3.y (angular (ts_twist (velocity st))))
                            wm)))).
Proof.
  intros (S1 & S2 & S3 & S4 & I1 & I2 & I3 & I4 & Vx & Vy & (t & Pt) & Fc & Ac)
         Sx Sy xm ym zm wm.
  unfold analyse.
  destruct (multiply_shaped _ _ _ _ _ Sx S1 I1) as (p1 & E1 & T1).
  destruct (multiply_shaped _ _ _ _ _ Sy S2 I2) as (p2 & E2 & T2).
  destruct (multiply_shaped _ _ _ _ _ Sx S3 I3) as (p3 & E3 & T3).
  destruct (multiply_shaped _ _ _ _ _ Sy S4 I4) as (p4 & E4 & T4).
  rewrite E1, E2, E3, E4. cbn [bind]. rewrite T1, T2, T3, T4.
  rewrite Vx, Vy, Pt, Fc, Ac.
  assert (X : fadd (fsub (of_Z 0) (fmul (of_Z (Np.isum (Frame.x a))) (Fin fc)))
                   (fmul (farctan (fmul (Fin 0) (fsub (Fin t1) (Fin t))))
                      (Fin 1)) = xm).
  { unfold xm, of_Z. cbn [fsub fopp fadd fmul farctan]. f_equal.
    rewrite Rmult_0_l, atan_0. ring. }
  assert (Y : fadd (fmul (of_Z (Np.isum (Frame.y a))) (Fin fc))
                   (fmul (farctan (fmul (Fin 0) (fsub (Fin t1) (Fin t))))
                      (Fin 1)) = ym).
  { unfold ym, of_Z. cbn [fsub fopp fadd fmul farctan]. f_equal.
    rewrite Rmult_0_l, atan_0. ring. }
  rewrite X, Y. reflexivity.
Qed.

End AnalyseShaped.

(** ** The estimator on arbitrary frames *)

Section EstimatorFrames.

Open Scope R_scope.

(** X1.  After [setup] on a resolution of at least 32 by 32 and any inputs
    handled so far, [analyse] returns on every frame whose ['x'] and ['y']
    arrays have the filter shape.  The lateral motions are the negated sum
    of [dx] and the sum of [dy], times [flow_coeff]; all four motions are
    finite; exactly one message is published, carrying them and the
    reading of the ROS clock; the filters, the held rates and the
    coefficient are left as they were. *)
Theorem analyse_returns_on_shaped_frames
        (euler_from_quaternion : list num -> num * num * num)
        (width height : Z) (p : option (list TwistStamped)) (fs t0 : R) :
  (width mod 16 = 0)%Z -> (height mod 16 = 0)%Z ->
  (32 <= width)%Z -> (32 <= height)%Z ->
  let rows := Z.to_nat (height / 16) in
  let cols := Z.to_nat (width / 16 + 1) in
  let fc := fs / (IZR width / 16 * IZR height / 16 * 128) in
  exists st0,
    setup (width, height) p (Fin fs) (Fin t0) = Ok st0 /\
    forall events st a t1 rostime,
      run euler_from_quaternion st0 events = Ok st ->
      shaped rows cols (Frame.x a) -> shaped rows cols (Frame.y a) ->
      exists st1 vz vyaw,
        analyse st a (Fin t1) rostime = Ok st1 /\
        x_motion st1 = Fin (- (IZR (Np.isum (Frame.x a)) * fc)) /\
        y_motion st1 = Fin (IZR (Np.isum (Frame.y a)) * fc) /\
        z_motion st1 = Fin vz /\
        yaw_motion st1 = Fin vyaw /\
        linear (ts_twist (velocity st1))
        = Vector3.mk (x_motion st1) (y_motion st1) (z_motion st1) /\
        Vector3.z (angular (ts_twist (velocity st1))) = yaw_motion st1 /\
        stamp (ts_header (velocity st1)) = rostime /\
        pub st1 = pub st ++ [velocity st1] /\
        prev_time st1 = Fin t1 /\
        z_filter_x st1 = z_filter_x st /\ z_filter_y st1 = z_filter_y st /\
        yaw_filter_x st1 = yaw_filter_x st /\
        yaw_filter_y st1 = yaw_filter_y st /\
        ang_vx st1 = ang_vx st /\ ang_vy st1 = ang_vy st /\
        flow_coeff st1 = flow_coeff st.
Proof.
  intros Mw Mh Hw Hh rows cols fc.
  destruct (setup_configured width height p fs t0 Mw Mh Hw Hh)
    as (st0 & nx & ny & E & _ & _ & _ & _ & Cf & I0 & _).
  exists st0. split; [exact E |]. intros events st a t1 rostime Run Sx Sy.
  pose proof (run_keeps_idle euler_from_quaternion _ events _ _ I0 Run) as I.
  pose proof (configured_idle _ _ _ _ _ _ _ Cf I) as Cs.
  unfold cols in Sx, Sy. rewrite grid_cols_succ in Sx, Sy by lia.
  eexists; eexists; eexists.
  rewrite (analyse_configured _ _ _ _ _ st a t1 rostime Cs Sx Sy).
  split; [reflexivity |].
  cbn [store_estimate x_motion y_motion z_motion yaw_motion velocity pub
       prev_time z_filter_x z_filter_y yaw_filter_x yaw_filter_y ang_vx ang_vy
       flow_coeff ts_twist ts_header stamp linear angular Vector3.z].
  repeat split.
Qed.

Lemma analyse_returns_on_shaped_frames_witness :
  let a := Frame.mk (Np.full 15 21 5%Z) (Np.full 15 21 (-2)%Z)
                    (Np.full 15 21 0%Z) in
  exists st0 st1,
    setup (320, 240)%Z None (Fin (33 / 2)) (Fin 0) = Ok st0 /\
    analyse st0 a (Fin 1) Time0 = Ok st1 /\
    pub st1 = pub st0 ++ [velocity st1] /\
    stamp (ts_header (velocity st1)) = Time0.
Proof.
  intros a.
  destruct (analyse_returns_on_shaped_frames
              (fun _ => (Fin 0, Fin 0, Fin 0)) 320 240 None (33 / 2) 0
              eq_refl eq_refl ltac:(lia) ltac:(lia))
    as (st0 & E & H).
  destruct (H [] st0 a 1 Time0 eq_refl)
    as (st1 & vz & vyaw & E1 & _ & _ & _ & _ & _ & _ & S & P & _).
  - split; reflexivity.
  - split; reflexivity.
  - exists st0, st1. repeat split; assumption.
Defined.

End EstimatorFrames.

(** ** The padding column and the range of the lateral motions *)

Section PaddingAndRange.

Open Scope R_scope.

Lemma offset_x_pad (cols rows j : nat) : offset_x cols rows j cols = 0.
Proof. unfold offset_x. now rewrite Nat.ltb_irrefl. Qed.

Lemma offset_y_pad (cols rows j : nat) : offset_y cols rows j cols = 0.
Proof. unfold offset_y. now rewrite Nat.ltb_irrefl. Qed.

Lemma offset_x_in (cols rows j i : nat) :
  (j < rows)%nat -> (i < cols)%nat ->
  offset_x cols rows j i = INR i - (INR cols - 1) / 2.
Proof.
  intros Hj Hi. unfold offset_x. apply Nat.ltb_lt in Hj, Hi.
  now rewrite Hj, Hi.
Qed.

Lemma offset_y_in (cols rows j i : nat) :
  (j < rows)%nat -> (i < cols)%nat ->
  offset_y cols rows j i = INR j - (INR rows - 1) / 2.
Proof.
  intros Hj Hi. unfold offset_y. apply Nat.ltb_lt in Hj, Hi.
  now rewrite Hj, Hi.
Qed.

(** Weights that vanish in the last column ignore that column of the
    frame. *)
Lemma dot_pad_ext (rows cols : nat) (x x' : Np.ndarray Z)
      (g : nat -> nat -> R) :
  (forall j, g j cols = 0) ->
  (forall j i, (j < rows)%nat -> (i < cols)%nat ->
               Np.item x j i = Np.item x' j i) ->
  dot rows (S cols) x g = dot rows (S cols) x' g.
Proof.
  intros Hg Hx. unfold dot. apply rsum2_ext. intros j i Hj Hi.
  destruct (Nat.eq_dec i cols) as [-> | Hne].
  - rewrite Hg. ring.
  - rewrite Hx by lia. reflexivity.
Qed.

(** X2.  After [setup] on a resolution of at least 32 by 32 and any inputs
    handled so far, two frames of the filter shape that differ only in the
    padding column get the same [z_motion] and the same [yaw_motion]. *)
Theorem padding_column_does_not_enter_vz_and_yaw
        (euler_from_quaternion : list num -> num * num * num)
        (width height : Z) (p : option (list TwistStamped)) (fs t0 : R) :
  (width mod 16 = 0)%Z -> (height mod 16 = 0)%Z ->
  (32 <= width)%Z -> (32 <= height)%Z ->
  let rows := Z.to_nat (height / 16) in
  let cols := Z.to_nat (width / 16 + 1) in
  exists st0,
    setup (width, height) p (Fin fs) (Fin t0) = Ok st0 /\
    forall events st a a' t1 rostime,
      run euler_from_quaternion st0 events = Ok st ->
      shaped rows cols (Frame.x a) -> shaped rows cols (Frame.y a) ->
      shaped rows cols (Frame.x a') -> shaped rows cols (Frame.y a') ->
      (forall j i, (j < rows)%nat -> (i < Z.to_nat (width / 16))%nat ->
                   Np.item (Frame.x a) j i = Np.item (Frame.x a') j i /\
                   Np.item (Frame.y a) j i = Np.item (Frame.y a') j i) ->
      exists st1 st1',
        analyse st a (Fin t1) rostime = Ok st1 /\
        analyse st a' (Fin t1) rostime = Ok st1' /\
        z_motion st1 = z_motion st1' /\
        yaw_motion st1 = yaw_motion st1'.
Proof.
  intros Mw Mh Hw Hh rows cols.
  destruct (setup_configured width height p fs t0 Mw Mh Hw Hh)
    as (st0 & nx & ny & E & _ & _ & _ & _ & Cf & I0 & _).
  exists st0. split; [exact E |].
  intros events st a a' t1 rostime Run Sx Sy Sx' Sy' Same.
  pose proof (run_keeps_idle euler_from_quaternion _ events _ _ I0 Run) as I.
  pose proof (configured_idle _ _ _ _ _ _ _ Cf I) as Cs.
  unfold cols in Sx, Sy, Sx', Sy'.
  rewrite grid_cols_succ in Sx, Sy, Sx', Sy' by lia.
  eexists; eexists.
  rewrite (analyse_configured _ _ _ _ _ st a t1 rostime Cs Sx Sy).
  rewrite (analyse_configured _ _ _ _ _ st a' t1 rostime Cs Sx' Sy').
  split; [reflexivity |]. split; [reflexivity |].
  cbn [store_estimate z_motion yaw_motion].
  assert (Ex : forall g, (forall j, g j (Z.to_nat (width / 16)) = 0) ->
                         dot rows (S (Z.to_nat (width / 16))) (Frame.x a) g
                         = dot rows (S (Z.to_nat (width / 16))) (Frame.x a') g).
  { intros g Hg. apply dot_pad_ext; trivial. intros j i Hj Hi.
    now apply Same. }
  assert (Ey : forall g, (forall j, g j (Z.to_nat (width / 16)) = 0) ->
                         dot rows (S (Z.to_nat (width / 16))) (Frame.y a) g
                         = dot rows (S (Z.to_nat (width / 16))) (Frame.y a') g).
  { intros g Hg. apply dot_pad_ext; trivial. intros j i Hj Hi.
    now apply Same. }
  split; f_equal; f_equal.
  - apply Ex. intros j. rewrite offset_x_pad. unfold Rdiv. ring.
  - apply Ey. intros j. rewrite offset_y_pad. unfold Rdiv. ring.
  - apply Ex. intros j. rewrite offset_y_pad. unfold Rdiv. ring.
  - apply Ey. intros j. rewrite offset_x_pad. unfold Rdiv. ring.
Qed.

Lemma padding_column_does_not_enter_vz_and_yaw_witness :
  let a := Frame.mk (Np.full 15 21 5%Z) (Np.full 15 21 1%Z)
                    (Np.full 15 21 0%Z) in
  let a' := Frame.mk
              (Np.mk_ndarray 15 21
                 (fun _ i => if (i =? 20)%nat then 9%Z else 5%Z))
              (Np.mk_ndarray 15 21
                 (fun _ i => if (i =? 20)%nat then (-7)%Z else 1%Z))
              (Np.full 15 21 0%Z) in
  exists st0 st1 st1',
    setup (320, 240)%Z None (Fin (33 / 2)) (Fin 0) = Ok st0 /\
    analyse st0 a (Fin 1) Time0 = Ok st1 /\
    analyse st0 a' (Fin 1) Time0 = Ok st1' /\
    z_motion st1 = z_motion st1' /\
    yaw_motion st1 = yaw_motion st1'.
Proof.
  intros a a'.
  destruct (padding_column_does_not_enter_vz_and_yaw
              (fun _ => (Fin 0, Fin 0, Fin 0)) 320 240 None (33 / 2) 0
              eq_refl eq_refl ltac:(lia) ltac:(lia))
    as (st0 & E & H).
  destruct (H [] st0 a a' 1 Time0 eq_refl)
    as (st1 & st1' & E1 & E1' & Zm & Ym);
    try (split; reflexivity).
  - intros j i Hj Hi. change (Z.to_nat (320 / 16)) with 20%nat in Hi.
    cbn [a a' Frame.x Frame.y Np.full Np.item].
    destruct (Nat.eqb_spec i 20); [lia | split; reflexivity].
  - exists st0, st1, st1'. repeat split; assumption.
Defined.






End PaddingAndRange.

(** ** Diverging and rotating fields *)

Section RadialFields.

Open Scope R_scope.















End RadialFields.

(** ** More on the filter grids *)

Section FilterGrids.

Open Scope R_scope.

Lemma balanced_sum (rows cols : nat) (w : Np.ndarray num) :
  balanced rows cols w -> Np.sum w = Fin 0.
Proof.
  intros (g & R & C & F & Z). rewrite (sum_finite w g F), R, C, Z. reflexivity.
Qed.

(** X6.  On a resolution of at least 32 by 32, each of the four filter
    grids adds up to zero. *)
Theorem filter_grids_sum_to_zero (width height : Z) :
  (width mod 16 = 0)%Z -> (height mod 16 = 0)%Z ->
  (32 <= width)%Z -> (32 <= height)%Z ->
  exists zfx zfy,
    get_z_filter (width, height) = Ok (zfx, zfy) /\
    Np.sum zfx = Fin 0 /\ Np.sum zfy = Fin 0 /\
    Np.sum (fst (get_yaw_filter (width, height) (zfx, zfy))) = Fin 0 /\
    Np.sum (snd (get_yaw_filter (width, height) (zfx, zfy))) = Fin 0.
Proof.
  intros Mw Mh Hw Hh.
  destruct (get_z_filter_ok width height) as (zx & zy & E & Rx & Ry);
    try lia; trivial.
  destruct (fresh_filters_balanced _ _ zx zy NaN NaN NaN
              (grid_cols width Mw Hw) (grid_cols height Mh Hh) Rx Ry)
    as (B1 & B2 & B3 & B4).
  cbn [fresh z_filter_x z_filter_y yaw_filter_x yaw_filter_y] in B1, B2, B3, B4.
  eexists; eexists. split; [exact E |].
  cbn [get_yaw_filter fst snd].
  repeat split; eapply balanced_sum; eassumption.
Qed.

Lemma filter_grids_sum_to_zero_witness :
  exists zfx zfy,
    get_z_filter (320, 240)%Z = Ok (zfx, zfy) /\
    Np.sum zfx = Fin 0 /\ Np.sum zfy = Fin 0 /\
    Np.sum (fst (get_yaw_filter (320, 240)%Z (zfx, zfy))) = Fin 0 /\
    Np.sum (snd (get_yaw_filter (320, 240)%Z (zfx, zfy))) = Fin 0.
Proof.
  apply (filter_grids_sum_to_zero 320 240);
    [reflexivity | reflexivity | lia | lia].
Defined.




Lemma rsum_squares (n : nat) :
  6 * rsum n (fun k => INR k * INR k) = INR n * (INR n - 1) * (2 * INR n - 1).
Proof.
  induction n as [| n IH].
  - simpl. ring.
  - change (rsum (S n) (fun k => INR k * INR k))
      with (rsum n (fun k => INR k * INR k) + INR n * INR n).
    rewrite S_INR, Rmult_plus_distr_l, IH. ring.
Qed.

Lemma rsum_shifted_squares (m : R) (n : nat) :
  rsum n (fun k => (INR k - m) * (INR k - m))
  = rsum n (fun k => INR k * INR k) - 2 * m * rsum n (fun k => INR k)
    + INR n * m * m.
Proof.
  induction n as [| n IH].
  - simpl. ring.
  - cbn [rsum]. rewrite IH, S_INR. ring.
Qed.

(** The squared offsets from the middle of [0 .. n-1] add up to
    [n (n^2 - 1) / 12]. *)
Lemma rsum_centered_squares (n : nat) :
  rsum n (fun k => (INR k - (INR n - 1) / 2) * (INR k - (INR n - 1) / 2))
  = INR n * (INR n * INR n - 1) / 12.
Proof.
  rewrite rsum_shifted_squares.
  pose proof (rsum_squares n) as Q. pose proof (rsum_id n) as L.
  set (sq := rsum n (fun k => INR k * INR k)) in *.
  set (li := rsum n (fun k => INR k)) in *.
  replace sq with (INR n * (INR n - 1) * (2 * INR n - 1) / 6) by lra.
  replace li with (INR n * (INR n - 1) / 2) by lra.
  field.
Qed.

Lemma sumsq_offset_x (cols rows : nat) :
  sumsq (offset_x cols rows) cols rows
  = INR rows * (INR cols * (INR cols * INR cols - 1) / 12).
Proof.
  unfold sumsq, rsum2.
  rewrite (rsum_ext rows _
             (fun _ => INR cols * (INR cols * INR cols - 1) / 12)).
  - apply rsum_const.
  - intros j Hj. cbn [rsum]. rewrite offset_x_pad.
    rewrite (rsum_ext cols _
               (fun k => (INR k - (INR cols - 1) / 2)
                         * (INR k - (INR cols - 1) / 2))).
    + rewrite rsum_centered_squares. ring.
    + intros i Hi. now rewrite offset_x_in.
Qed.

Lemma sumsq_offset_y (cols rows : nat) :
  sumsq (offset_y cols rows) cols rows
  = INR cols * (INR rows * (INR rows * INR rows - 1) / 12).
Proof.
  unfold sumsq, rsum2.
  rewrite (rsum_ext rows _
             (fun j => INR cols * ((INR j - (INR rows - 1) / 2)
                                   * (INR j - (INR rows - 1) / 2)))).
  - rewrite rsum_scal, rsum_centered_squares. ring.
  - intros j Hj. cbn [rsum]. rewrite offset_y_pad.
    rewrite (rsum_ext cols _
               (fun _ => (INR j - (INR rows - 1) / 2)
                         * (INR j - (INR rows - 1) / 2))).
    + rewrite rsum_const. ring.
    + intros i Hi. now rewrite offset_y_in.
Qed.

(** X8.  The weights in closed form.  On a resolution of at least 32 by
    32, with [cols = width/16] and [rows = height/16], the weight of cell
    [(j, i)] outside the padding column is
    [(i - (cols-1)/2) / sqrt (rows cols (cols^2 - 1) / 12)] in the X grid
    and [(j - (rows-1)/2) / sqrt (cols rows (rows^2 - 1) / 12)] in the
    Y grid. *)
Theorem z_filter_weights_closed_form (width height : Z) :
  (width mod 16 = 0)%Z -> (height mod 16 = 0)%Z ->
  (32 <= width)%Z -> (32 <= height)%Z ->
  let cols := Z.to_nat (width / 16) in
  let rows := Z.to_nat (height / 16) in
  exists zfx zfy,
    get_z_filter (width, height) = Ok (zfx, zfy) /\
    forall j i, (j < rows)%nat -> (i < cols)%nat ->
      Np.item zfx j i
      = Fin ((INR i - (INR cols - 1) / 2)
             / sqrt (INR rows * (INR cols * (INR cols * INR cols - 1) / 12)))
      /\
      Np.item zfy j i
      = Fin ((INR j - (INR rows - 1) / 2)
             / sqrt (INR cols * (INR rows * (INR rows * INR rows - 1) / 12))).
Proof.
  intros Mw Mh Hw Hh cols rows.
  destruct (get_z_filter_ok width height) as (zx & zy & E & Rx & Ry);
    try lia; trivial.
  fold cols rows in Rx, Ry.
  pose proof (grid_cols width Mw Hw) as Hc. fold cols in Hc.
  pose proof (grid_cols height Mh Hh) as Hr. fold rows in Hr.
  pose proof (raw_grid_finite _ _ _ _ Rx) as Fx.
  pose proof (raw_grid_finite _ _ _ _ Ry) as Fy.
  assert (Px : 0 < sqrt (sumsq (offset_x cols rows) cols rows))
    by (apply sqrt_lt_R0, offset_x_sumsq_pos; lia).
  assert (Py : 0 < sqrt (sumsq (offset_y cols rows) cols rows))
    by (apply sqrt_lt_R0, offset_y_sumsq_pos; lia).
  assert (Nx : Np.norm zx = Fin (sqrt (sumsq (offset_x cols rows) cols rows))).
  { rewrite (norm_finite zx _ Fx). destruct Rx as (-> & -> & _). reflexivity. }
  assert (Ny : Np.norm zy = Fin (sqrt (sumsq (offset_y cols rows) cols rows))).
  { rewrite (norm_finite zy _ Fy). destruct Ry as (-> & -> & _). reflexivity. }
  destruct Rx as (_ & _ & Ix). destruct Ry as (_ & _ & Iy).
  eexists; eexists. split; [exact E |]. intros j i Hj Hi.
  cbn [Np.idiv Np.map_items Np.item]. rewrite Nx, Ny, Ix, Iy.
  rewrite !np_div_fin by lra.
  rewrite sumsq_offset_x, sumsq_offset_y.
  rewrite offset_x_in, offset_y_in by assumption. split; reflexivity.
Qed.

Lemma z_filter_weights_closed_form_witness :
  exists zfx zfy,
    get_z_filter (320, 240)%Z = Ok (zfx, zfy) /\
    Np.item zfx 0 0
    = Fin ((INR 0 - (INR 20 - 1) / 2)
           / sqrt (INR 15 * (INR 20 * (INR 20 * INR 20 - 1) / 12))) /\
    Np.item zfy 0 0
    = Fin ((INR 0 - (INR 15 - 1) / 2)
           / sqrt (INR 20 * (INR 15 * (INR 15 * INR 15 - 1) / 12))).
Proof.
  destruct (z_filter_weights_closed_form 320 240 eq_refl eq_refl
              ltac:(lia) ltac:(lia))
    as (zfx & zfy & E & H).
  exists zfx, zfy. split; [exact E |].
  apply (H 0%nat 0%nat).
  - change (Z.to_nat (240 / 16)) with 15%nat. lia.
  - change (Z.to_nat (320 / 16)) with 20%nat. lia.
Defined.

Lemma z_filter_mirror_aux (width height : Z) :
  (width mod 16 = 0)%Z -> (height mod 16 = 0)%Z ->
  (32 <= width)%Z -> (32 <= height)%Z ->
  exists zfx zfy nx ny,
    get_z_filter (width, height) = Ok (zfx, zfy) /\ 0 < nx /\ 0 < ny /\
    (forall j i, Np.item zfx j i
                 = Fin (offset_x (Z.to_nat (width / 16))
                          (Z.to_nat (height / 16)) j i / nx)) /\
    (forall j i, Np.item zfy j i
                 = Fin (offset_y (Z.to_nat (width / 16))
                          (Z.to_nat (height / 16)) j i / ny)).
Proof.
  intros Mw Mh Hw Hh.
  destruct (get_z_filter_ok width height) as (zx & zy & E & Rx & Ry);
    try lia; trivial.
  pose proof (grid_cols width Mw Hw) as Hc.
  pose proof (grid_cols height Mh Hh) as Hr.
  pose proof (raw_grid_finite _ _ _ _ Rx) as Fx.
  pose proof (raw_grid_finite _ _ _ _ Ry) as Fy.
  assert (Px : 0 < sqrt (sumsq (offset_x (Z.to_nat (width / 16))
                                  (Z.to_nat (height / 16)))
                           (Z.to_nat (width / 16)) (Z.to_nat (height / 16))))
    by (apply sqrt_lt_R0, offset_x_sumsq_pos; lia).
  assert (Py : 0 < sqrt (sumsq (offset_y (Z.to_nat (width / 16))
                                  (Z.to_nat (height / 16)))
                           (Z.to_nat (width / 16)) (Z.to_nat (height / 16))))
    by (apply sqrt_lt_R0, offset_y_sumsq_pos; lia).
  eexists; eexists; eexists; eexists. split; [exact E |].
  cbn [Np.idiv Np.map_items Np.item].
  rewrite (norm_finite zx _ Fx), (norm_finite zy _ Fy).
  destruct Rx as (-> & -> & Ix). destruct Ry as (-> & -> & Iy).
  split; [exact Px |]. split; [exact Py |].
  split; intros j i.
  - rewrite Ix. apply np_div_fin. apply Rgt_not_eq. exact Px.
  - rewrite Iy. apply np_div_fin. apply Rgt_not_eq. exact Py.
Qed.

(** X9.  On a resolution of at least 32 by 32, the X weights do not depend
    on the row and change sign under the mirror [i -> cols - 1 - i]; the
    Y weights do not depend on the column outside the padding column and
    change sign under the mirror [j -> rows - 1 - j]. *)
Theorem z_filter_is_antisymmetric (width height : Z) :
  (width mod 16 = 0)%Z -> (height mod 16 = 0)%Z ->
  (32 <= width)%Z -> (32 <= height)%Z ->
  let cols := Z.to_nat (width / 16) in
  let rows := Z.to_nat (height / 16) in
  exists zfx zfy,
    get_z_filter (width, height) = Ok (zfx, zfy) /\
    forall j j' i i', (j < rows)%nat -> (j' < rows)%nat ->
                      (i < cols)%nat -> (i' < cols)%nat ->
      Np.item zfx j' i = Np.item zfx j i /\
      Np.item zfx j (cols - 1 - i) = fopp (Np.item zfx j i) /\
      Np.item zfy j i' = Np.item zfy j i /\
      Np.item zfy (rows - 1 - j) i = fopp (Np.item zfy j i).
Proof.
  intros Mw Mh Hw Hh cols rows.
  destruct (z_filter_mirror_aux width height Mw Mh Hw Hh)
    as (zfx & zfy & nx & ny & E & Px & Py & Ix & Iy).
  fold cols rows in Ix, Iy.
  exists zfx, zfy. split; [exact E |]. intros j j' i i' Hj Hj' Hi Hi'.
  rewrite !Ix, !Iy. cbn [fopp].
  rewrite !offset_x_in, !offset_y_in by lia.
  rewrite !minus_INR by lia. cbn [INR].
  repeat split; f_equal; field; lra.
Qed.

Lemma z_filter_is_antisymmetric_witness :
  exists zfx zfy,
    get_z_filter (320, 240)%Z = Ok (zfx, zfy) /\
    Np.item zfx 3 (20 - 1 - 4) = fopp (Np.item zfx 3 4) /\
    Np.item zfy (15 - 1 - 3) 4 = fopp (Np.item zfy 3 4).
Proof.
  destruct (z_filter_is_antisymmetric 320 240 eq_refl eq_refl
              ltac:(lia) ltac:(lia))
    as (zfx & zfy & E & H).
  exists zfx, zfy. split; [exact E |].
  change (Z.to_nat (240 / 16)) with 15%nat in H.
  change (Z.to_nat (320 / 16)) with 20%nat in H.
  destruct (H 3%nat 3%nat 4%nat 4%nat) as (_ & A & _ & B); try lia.
  split; assumption.
Defined.

End FilterGrids.

(** ** Failures of [setup], [get_z_filter] and [analyse] *)

Section Failures.

Open Scope R_scope.

(** X10.  [setup] on pixel dimensions that are not negative: it raises the
    [AssertionError] of [get_z_filter] when a dimension is not a multiple
    of 16; when both are and one of them is zero, it raises
    [ZeroDivisionError], at the division by [max_flow = 0]; when both are
    positive multiples of 16 it returns an object. *)
Theorem setup_outcomes (width height : Z) (p : option (list TwistStamped))
        (fs now : num) :
  (0 <= width)%Z -> (0 <= height)%Z ->
  (~ ((width mod 16 = 0)%Z /\ (height mod 16 = 0)%Z) ->
   setup (width, height) p fs now = Raise AssertionError) /\
  ((width mod 16 = 0)%Z -> (height mod 16 = 0)%Z ->
   (width = 0 \/ height = 0)%Z ->
   setup (width, height) p fs now = Raise ZeroDivisionError) /\
  ((width mod 16 = 0)%Z -> (height mod 16 = 0)%Z ->
   (0 < width)%Z -> (0 < height)%Z ->
   exists st, setup (width, height) p fs now = Ok st /\
              prev_time st = now /\ norm_flow_to_cm st = fs /\
              pub st = [] /\ imu_time st = None).
Proof.
  intros Hw Hh. repeat split.
  - intros N. unfold setup, get_z_filter.
    destruct (Z.eqb_spec (width mod 16) 0) as [Mw | Mw];
      destruct (Z.eqb_spec (height mod 16) 0) as [Mh | Mh];
      cbn [andb negb bind]; try reflexivity.
    elim N. now split.
  - intros Mw Mh Zero.
    destruct (get_z_filter_ok width height Hw Hh Mw Mh) as (zx & zy & E & _).
    unfold setup. rewrite E. cbn [bind fst snd get_yaw_filter].
    unfold of_Z. rewrite py_div_fin by lra. cbn [bind fmul].
    rewrite py_div_fin by lra. cbn [bind fmul].
    assert (Z0 : IZR width / 16 * IZR height / 16 * IZR (2 ^ 7) = 0).
    { destruct Zero as [-> | ->]; unfold Rdiv; ring. }
    rewrite Z0. unfold py_div.
    destruct (Req_dec_T 0 0) as [_ | N]; [reflexivity | now elim N].
  - intros Mw Mh Pw Ph.
    destruct (setup_ok width height p fs now Pw Ph Mw Mh)
      as (zx & zy & _ & _ & E).
    eexists. split; [exact E |]. repeat split.
Qed.

Lemma setup_outcomes_witness :
  setup (320, 250)%Z None (Fin (33 / 2)) (Fin 0) = Raise AssertionError /\
  setup (0, 240)%Z None (Fin (33 / 2)) (Fin 0) = Raise ZeroDivisionError /\
  exists st, setup (320, 240)%Z None (Fin (33 / 2)) (Fin 0) = Ok st.
Proof.
  split; [| split].
  - destruct (setup_outcomes 320 250 None (Fin (33 / 2)) (Fin 0)) as (A & _);
      try lia.
    apply A. intros [_ M]. discriminate M.
  - destruct (setup_outcomes 0 240 None (Fin (33 / 2)) (Fin 0))
      as (_ & B & _); try lia.
    apply B; [reflexivity | reflexivity | now left].
  - destruct (setup_outcomes 320 240 None (Fin (33 / 2)) (Fin 0))
      as (_ & _ & C); try lia.
    destruct C as (st & E & _); [reflexivity | reflexivity | lia | lia |].
    now exists st.
Defined.

(** X11.  [get_z_filter] on multiples of 16 of which the height is
    negative or the width is below -16: [np.zeros] refuses the negative
    dimension with a [ValueError]. *)
Theorem get_z_filter_refuses_negative_dimensions (width height : Z) :
  (width mod 16 = 0)%Z -> (height mod 16 = 0)%Z ->
  (height < 0 \/ width < -16)%Z ->
  get_z_filter (width, height) = Raise ValueError.
Proof.
  intros Mw Mh Neg. unfold get_z_filter. rewrite Mw, Mh.
  cbn [Z.eqb andb negb]. unfold of_Z. rewrite !py_div_fin by lra.
  cbn [bind]. unfold Np.zeros.
  assert (Ew : width = (16 * (width / 16))%Z)
    by (rewrite (Z.div_mod width 16) at 1; lia).
  assert (Eh : height = (16 * (height / 16))%Z)
    by (rewrite (Z.div_mod height 16) at 1; lia).
  assert (B : ((height / 16 <? 0) || (width / 16 + 1 <? 0))%Z = true).
  { apply orb_true_iff. destruct Neg as [N | N].
    - left. apply Z.ltb_lt. lia.
    - right. apply Z.ltb_lt. lia. }
  rewrite B. reflexivity.
Qed.

Lemma get_z_filter_refuses_negative_dimensions_witness :
  get_z_filter (320, -240)%Z = Raise ValueError.
Proof.
  apply (get_z_filter_refuses_negative_dimensions 320 (-240));
    [reflexivity | reflexivity | left; lia].
Defined.

Lemma broadcast_none (m n : nat) :
  m <> n -> m <> 1%nat -> n <> 1%nat -> Np.broadcast m n = None.
Proof.
  intros A B C. unfold Np.broadcast.
  destruct (Nat.eqb_spec m n); [contradiction |].
  destruct (Nat.eqb_spec m 1); [contradiction |].
  destruct (Nat.eqb_spec n 1); [contradiction | reflexivity].
Qed.

(** X12.  [analyse] on a frame whose ['x'] array has another number of
    rows, or of columns, than the divergence grid, neither of the two
    being 1: the element-wise product cannot be broadcast and [analyse]
    raises [ValueError]. *)
Theorem analyse_refuses_other_shapes (st : AnalyzeFlow) (a : Frame.t)
        (now : num) (rostime : Time) :
  (Np.nrows (Frame.x a) <> Np.nrows (z_filter_x st) /\
   Np.nrows (Frame.x a) <> 1%nat /\ Np.nrows (z_filter_x st) <> 1%nat)
  \/
  (Np.ncols (Frame.x a) <> Np.ncols (z_filter_x st) /\
   Np.ncols (Frame.x a) <> 1%nat /\ Np.ncols (z_filter_x st) <> 1%nat) ->
  analyse st a now rostime = Raise ValueError.
Proof.
  intros H. unfold analyse, Np.multiply.
  destruct H as [(A & B & C) | (A & B & C)].
  - rewrite (broadcast_none _ _ A B C). reflexivity.
  - rewrite (broadcast_none _ _ A B C).
    destruct (Np.broadcast (Np.nrows (Frame.x a)) (Np.nrows (z_filter_x st)));
      reflexivity.
Qed.

Lemma analyse_refuses_other_shapes_witness :
  let st := fresh (Np.full 15 21 (Fin 0)) (Np.full 15 21 (Fin 0))
                  (Fin 1) (Fin 1) (Fin 0) in
  let a := Frame.mk (Np.full 30 41 0%Z) (Np.full 30 41 0%Z)
                    (Np.full 30 41 0%Z) in
  analyse st a (Fin 1) Time0 = Raise ValueError.
Proof.
  intros st a. apply (analyse_refuses_other_shapes st a (Fin 1) Time0).
  left. cbn. repeat split; lia.
Defined.

End Failures.

(** ** Runs of the estimator, and the rate branch of [imu_callback] *)

Section Runs.

Open Scope R_scope.

Lemma imu_callback_keeps_pub
      (euler_from_quaternion : list num -> num * num * num)
      (st st' : AnalyzeFlow) (msg : Imu) :
  imu_callback euler_from_quaternion st msg = Ok st' ->
  pub st' = pub st /\ velocity st' = velocity st.
Proof.
  unfold imu_callback.
  destruct (euler_from_quaternion _) as [[angx angy] angz].
  destruct (py_ne (prev_imu_time st) (of_Z 0)).
  - destruct (getattr (imu_time st)) as [t |]; [| discriminate]. cbn [bind].
    destruct (py_div (fsub angx (prev_angx st)) _) as [vx |]; [| discriminate].
    cbn [bind].
    destruct (py_div (fsub angy (prev_angy st)) _) as [vy |]; [| discriminate].
    cbn [bind]. intros E. injection E as <-. split; reflexivity.
  - intros E. injection E as <-. split; reflexivity.
Qed.

Lemma analyse_appends_pub (st st' : AnalyzeFlow) (a : Frame.t) (now : num)
      (rostime : Time) :
  analyse st a now rostime = Ok st' ->
  pub st' = pub st ++ [velocity st'] /\
  stamp (ts_header (velocity st')) = rostime.
Proof.
  unfold analyse.
  destruct (Np.multiply (Frame.x a) (z_filter_x st)); [| discriminate].
  destruct (Np.multiply (Frame.y a) (z_filter_y st)); [| discriminate].
  destruct (Np.multiply (Frame.x a) (yaw_filter_x st)); [| discriminate].
  destruct (Np.multiply (Frame.y a) (yaw_filter_y st)); [| discriminate].
  cbn [bind]. intros E. injection E as <-. split; reflexivity.
Qed.

Lemma run_stamps (euler_from_quaternion : list num -> num * num * num)
      (events : list event) :
  forall st st',
    run euler_from_quaternion st events = Ok st' ->
    map (fun v => stamp (ts_header v)) (pub st')
    = map (fun v => stamp (ts_header v)) (pub st) ++ tick_stamps events.
Proof.
  induction events as [| e events IH]; intros st st' E.
  - injection E as <-. cbn [tick_stamps]. now rewrite app_nil_r.
  - unfold run in E. cbn [for_each] in E.
    destruct (deliver euler_from_quaternion st e) as [st1 |] eqn:D;
      [| discriminate].
    cbn [bind] in E. rewrite (IH st1 st' E).
    destruct e as [msg | a now rostime]; cbn [deliver tick_stamps] in *.
    + destruct (imu_callback_keeps_pub _ _ _ _ D) as [-> _]. reflexivity.
    + destruct (analyse_appends_pub _ _ _ _ _ D) as [-> S].
      rewrite map_app. cbn [map]. rewrite S, <- app_assoc. reflexivity.
Qed.

(** X13.  After [setup], along any sequence of attitude samples and camera
    ticks that are all handled, one message has been published per camera
    tick and none per attitude sample: the stamps of the published
    messages are the readings of the ROS clock at the ticks, in order. *)
Theorem one_message_per_camera_tick
        (euler_from_quaternion : list num -> num * num * num)
        (width height : Z) (p : option (list TwistStamped)) (fs now : num) :
  (width mod 16 = 0)%Z -> (height mod 16 = 0)%Z ->
  (0 < width)%Z -> (0 < height)%Z ->
  exists st0,
    setup (width, height) p fs now = Ok st0 /\
    forall events st,
      run euler_from_quaternion st0 events = Ok st ->
      map (fun v => stamp (ts_header v)) (pub st) = tick_stamps events /\
      List.length (pub st) = List.length (tick_stamps events).
Proof.
  intros Mw Mh Pw Ph.
  destruct (setup_ok width height p fs now Pw Ph Mw Mh)
    as (zx & zy & _ & _ & E).
  eexists. split; [exact E |]. intros events st Run.
  pose proof (run_stamps _ _ _ _ Run) as S. cbn [fresh pub map app] in S.
  split; [exact S |].
  rewrite <- S. now rewrite List.length_map.
Qed.

Lemma one_message_per_camera_tick_witness :
  let euler := fun _ : list num => (Fin 0, Fin 0, Fin 0) in
  let a := Frame.mk (Np.full 15 21 1%Z) (Np.full 15 21 1%Z)
                    (Np.full 15 21 0%Z) in
  let m := mk_Imu (mk_ImuHeader (Fin 1)) Quaternion.zero in
  let events := [ImuSample m; CameraTick a 1 (mk_Time 5 0);
                 CameraTick a 2 (mk_Time 6 0)] in
  exists st0 st,
    setup (320, 240)%Z None (Fin (33 / 2)) (Fin 0) = Ok st0 /\
    run euler st0 events = Ok st /\
    map (fun v => stamp (ts_header v)) (pub st) = [mk_Time 5 0; mk_Time 6 0].
Proof.
  intros euler a m events.
  destruct (one_message_per_camera_tick euler 320 240 None (Fin (33 / 2))
              (Fin 0) eq_refl eq_refl ltac:(lia) ltac:(lia))
    as (st0 & E & H).
  destruct (setup_configured 320 240 None (33 / 2) 0 eq_refl eq_refl
              ltac:(lia) ltac:(lia))
    as (st0' & nx & ny & E' & _ & _ & _ & _ & Cf & I0 & _).
  rewrite E in E'. injection E' as <-.
  assert (Sa : shaped (Z.to_nat (240 / 16)) (S (Z.to_nat (320 / 16)))
                 (Np.full 15 21 1%Z)) by (split; reflexivity).
  assert (R : exists st, run euler st0 events = Ok st).
  { unfold run, events. cbn [for_each deliver].
    destruct I0 as (_ & _ & _ & _ & _ & _ & _ & _ & P0 & _).
    rewrite (imu_callback_idle euler st0 m P0). cbn [bind].
    set (s1 := store_baseline _ _ _ _).
    assert (C1 : configured (Z.to_nat (320 / 16)) (Z.to_nat (240 / 16)) nx ny
                   (33 / 2 / (320 / 16 * 240 / 16 * 128)) s1) by exact Cf.
    rewrite (analyse_configured _ _ _ _ _ s1 a 1 (mk_Time 5 0) C1 Sa Sa).
    cbn [bind]. set (s2 := store_estimate _ _ _ _ _ _ _).
    assert (C2 : configured (Z.to_nat (320 / 16)) (Z.to_nat (240 / 16)) nx ny
                   (33 / 2 / (320 / 16 * 240 / 16 * 128)) s2).
    { destruct C1 as (S1 & S2 & S3 & S4 & I1 & I2 & I3 & I4 & Vx & Vy & _
                      & Fc & Ac).
      unfold configured. repeat split; trivial;
        try apply S1; try apply S2; try apply S3; try apply S4.
      now exists 1. }
    rewrite (analyse_configured _ _ _ _ _ s2 a 2 (mk_Time 6 0) C2 Sa Sa).
    cbn [bind]. eexists. reflexivity. }
  destruct R as (st & R).
  exists st0, st. split; [exact E |]. split; [exact R |].
  now destruct (H events st R) as [-> _].
Defined.

End Runs.

Section RateBranch.

Open Scope R_scope.






End RateBranch.

(** ** Streams of mocap samples *)

Section MocapStreams.

Lemma mocap_run_spec (samples : list Mocap.sample) :
  forall (self : Mocap.MocapStateEstimator)
         (sent_p : list PoseWithCovarianceStamped)
         (sent_t : list TwistWithCovarianceStamped)
         (sent_a : list AccelWithCovarianceStamped),
    Mocap.posepub self = Some sent_p ->
    Mocap.twistpub self = Some sent_t ->
    Mocap.accelpub self = Some sent_a ->
    exists s,
      mocap_run self samples = Ok s /\
      Mocap.posepub s
      = Some (sent_p ++ map Mocap.pose_to_pub (poses_of samples)) /\
      Mocap.twistpub s
      = Some (sent_t ++ map Mocap.twist_to_pub (twists_of samples)) /\
      Mocap.accelpub s
      = Some (sent_a ++ map Mocap.accel_to_pub (accels_of samples)) /\
      Mocap.received_data s
      = match poses_of samples with
        | [] => Mocap.received_data self
        | _ :: _ => true
        end.
Proof.
  induction samples as [| smp samples IH]; intros self sp st sa Hp Ht Ha.
  - exists self. cbn. rewrite !app_nil_r. repeat split; assumption.
  - unfold mocap_run. cbn [for_each].
    destruct smp as [m | m | m]; cbn [Mocap.deliver].
    + unfold Mocap.pose_callback. rewrite Hp. cbn [Mocap.publish bind].
      match goal with
      | |- exists s, for_each _ _ ?s1 = _ /\ _ =>
          destruct (IH s1 (sp ++ [Mocap.pose_to_pub m]) st sa)
            as (s & E & P & T & A & F); trivial
      end.
      exists s. split; [exact E |]. cbn [poses_of twists_of accels_of map].
      rewrite P, T, A, <- app_assoc. repeat split.
      rewrite F. cbn. now destruct (poses_of samples).
    + unfold Mocap.twist_callback. rewrite Ht. cbn [Mocap.publish bind].
      match goal with
      | |- exists s, for_each _ _ ?s1 = _ /\ _ =>
          destruct (IH s1 sp (st ++ [Mocap.twist_to_pub m]) sa)
            as (s & E & P & T & A & F); trivial
      end.
      exists s. split; [exact E |]. cbn [poses_of twists_of accels_of map].
      rewrite P, T, A, <- app_assoc. repeat split. exact F.
    + unfold Mocap.accel_callback. rewrite Ha. cbn [Mocap.publish bind].
      match goal with
      | |- exists s, for_each _ _ ?s1 = _ /\ _ =>
          destruct (IH s1 sp st (sa ++ [Mocap.accel_to_pub m]))
            as (s & E & P & T & A & F); trivial
      end.
      exists s. split; [exact E |]. cbn [poses_of twists_of accels_of map].
      rewrite P, T, A, <- app_assoc. repeat split. exact F.
Qed.

(** X16.  Once the three publishers exist, every stream of mocap samples
    is handled without exception, and afterwards [received_data] is
    [True] exactly when it was [True] before or the stream holds a pose
    sample: twist and acceleration samples never set it, and nothing
    resets it. *)
Theorem received_data_tracks_pose_samples
        (rigid_body_name : string) (samples : list Mocap.sample) :
  exists s,
    mocap_run (Mocap.with_publishers (Mocap.init rigid_body_name)) samples
    = Ok s /\
    (Mocap.received_data s = true <-> poses_of samples <> []).
Proof.
  destruct (mocap_run_spec samples
              (Mocap.with_publishers (Mocap.init rigid_body_name)) [] [] [])
    as (s & E & _ & _ & _ & F); try reflexivity.
  exists s. split; [exact E |]. rewrite F.
  destruct (poses_of samples); cbn; split; congruence.
Qed.

(** X17.  Once the three publishers exist, a stream of mocap samples is
    republished sample by sample: each publisher has sent, after what it
    had sent before, the remapped samples of its own kind, each once and
    in their order of arrival. *)
Theorem each_sample_is_republished_once
        (self : Mocap.MocapStateEstimator)
        (sent_p : list PoseWithCovarianceStamped)
        (sent_t : list TwistWithCovarianceStamped)
        (sent_a : list AccelWithCovarianceStamped)
        (samples : list Mocap.sample) :
  Mocap.posepub self = Some sent_p ->
  Mocap.twistpub self = Some sent_t ->
  Mocap.accelpub self = Some sent_a ->
  exists s,
    mocap_run self samples = Ok s /\
    Mocap.posepub s
    = Some (sent_p ++ map Mocap.pose_to_pub (poses_of samples)) /\
    Mocap.twistpub s
    = Some (sent_t ++ map Mocap.twist_to_pub (twists_of samples)) /\
    Mocap.accelpub s
    = Some (sent_a ++ map Mocap.accel_to_pub (accels_of samples)).
Proof.
  intros Hp Ht Ha.
  destruct (mocap_run_spec samples self sent_p sent_t sent_a Hp Ht Ha)
    as (s & E & P & T & A & _).
  exists s. repeat split; assumption.
Qed.

Lemma each_sample_is_republished_once_witness :
  let h := mk_Header (mk_Time 7 500) "mocap" in
  let v := Vector3.mk (Fin 1) (Fin 2) (Fin 3) in
  let tm := mk_TwistStamped h (mk_Twist v v) in
  let pm := mk_PoseStamped h (mk_Pose v Quaternion.zero) in
  let am := mk_AccelStamped h (mk_Twist v v) in
  exists s,
    mocap_run (Mocap.with_publishers (Mocap.init "drone"))
      [Mocap.TwistSample tm; Mocap.PoseSample pm; Mocap.AccelSample am;
       Mocap.PoseSample pm] = Ok s /\
    Mocap.posepub s = Some [Mocap.pose_to_pub pm; Mocap.pose_to_pub pm] /\
    Mocap.twistpub s = Some [Mocap.twist_to_pub tm] /\
    Mocap.accelpub s = Some [Mocap.accel_to_pub am].
Proof.
  intros h v tm pm am.
  apply (each_sample_is_republished_once
           (Mocap.with_publishers (Mocap.init "drone")) [] [] []
           [Mocap.TwistSample tm; Mocap.PoseSample pm; Mocap.AccelSample am;
            Mocap.PoseSample pm] eq_refl eq_refl eq_refl).
Defined.

(** X18.  Before the main program has created the publishers, each of the
    three callbacks raises [AttributeError] on every sample, so that a
    stream that is not empty is not handled at all. *)
Theorem callbacks_need_publishers
        (rigid_body_name : string) (smp : Mocap.sample)
        (samples : list Mocap.sample) :
  Mocap.deliver (Mocap.init rigid_body_name) smp = Raise AttributeError /\
  mocap_run (Mocap.init rigid_body_name) (smp :: samples)
  = Raise AttributeError.
Proof.
  assert (D : Mocap.deliver (Mocap.init rigid_body_name) smp
              = Raise AttributeError) by (destruct smp; reflexivity).
  split; [exact D |]. unfold mocap_run. cbn [for_each]. now rewrite D.
Qed.

Lemma fopp_involutive (v : num) : fopp (fopp v) = v.
Proof.
  destruct v as [r | | |]; cbn; trivial. now rewrite Ropp_involutive.
Qed.

(** X19.  The axis remap of twists and accelerations is its own inverse:
    a republished twist read back as a sample and remapped again carries
    the linear and angular vectors of the original sample, and so does an
    acceleration. *)
Theorem twist_and_accel_remap_is_an_involution
        (tm : TwistStamped) (am : AccelStamped) :
  tcs_twist (Mocap.twist_to_pub (twist_read_back (Mocap.twist_to_pub tm)))
  = ts_twist tm /\
  acs_accel (Mocap.accel_to_pub (accel_read_back (Mocap.accel_to_pub am)))
  = as_accel am.
Proof.
  destruct tm as [th [[tlx tly tlz] [tax tay taz]]].
  destruct am as [ah [[alx aly alz] [aax aay aaz]]].
  cbn. now rewrite !fopp_involutive.
Qed.

(** X20.  The axis remap of poses is its own inverse on the position and
    on the first three components of the orientation, but it does not
    carry the fourth: the republished [orientation.w] is zero whatever the
    sample holds. *)
Theorem pose_remap_drops_orientation_w (pm : PoseStamped) :
  let out := Mocap.pose_to_pub pm in
  let back := Mocap.pose_to_pub (pose_read_back out) in
  Quaternion.w (orientation (pcs_pose out)) = Fin 0 /\
  position (pcs_pose back) = position (ps_pose pm) /\
  Quaternion.x (orientation (pcs_pose back))
  = Quaternion.x (orientation (ps_pose pm)) /\
  Quaternion.y (orientation (pcs_pose back))
  = Quaternion.y (orientation (ps_pose pm)) /\
  Quaternion.z (orientation (pcs_pose back))
  = Quaternion.z (orientation (ps_pose pm)).
Proof.
  destruct pm as [h [[px py pz] [ox oy oz ow]]].
  cbn. rewrite !fopp_involutive. repeat split.
Qed.

End MocapStreams.
